(** * lex-eval: the NDJSON stream decoder, the connector's error paths and
      the reference-free metrics, embedded and verified.

    Sources embedded here:
    - [src/lex_eval/connectors/lex_llm_connector.py]
      ([LexLLMConnector._parse_ndjson_stream], [run_workflow],
      [health_check] and the pydantic models they build);
    - [src/lex_eval/metrics/metrics.py] ([MetricsCalculator]);
    - [src/tests/compare_workflows.py] (the composite ranking).

    Conventions.
    - A Python [str] is a list of Unicode code points ([list N]).
    - A computation that may raise is a value of [result]: [Return v] or
      [Raise e]; [try ... except] is [try_except].
    - A Python [float] obtained by dividing two integers is represented by
      the exact quotient in [Q]; the interpreter rounds that quotient to the
      nearest binary64 number.
    - The Unicode tables behind [str.lower] and the regex class [\w] are
      parameters of the metrics ([Section Metrics]); the instance
      [latin1_lower], [latin1_isalnum] gives them on code points below 256. *)

From Stdlib Require Import QArith String Ascii.
From stdpp Require Import base option list numbers countable gmap sorting.

Local Open Scope Z_scope.
Local Open Scope list_scope.

(** ** Python strings *)

Module Str.

Definition char := N.
Definition str := list N.

(** A literal: each byte of the Rocq string is one code point. *)
Definition lit (s : string) : str :=
  List.map N_of_ascii (list_ascii_of_string s).

(** A literal in which the apostrophe stands for the double quote, for
    writing JSON texts. *)
Definition qlit (s : string) : str :=
  List.map (fun c => if (c =? 39)%N then 34%N else c) (lit s).

Definition eqb (a b : str) : bool := bool_decide (a = b).

Definition nl : char := 10%N.
Definition space : char := 32%N.

(** [str.isspace] on one code point, which is also the set removed by
    [str.strip()] without argument. *)
Definition isspace (c : char) : bool :=
  ((9 <=? c) && (c <=? 13) || (28 <=? c) && (c <=? 32)
   || (c =? 133) || (c =? 160) || (c =? 5760)
   || (8192 <=? c) && (c <=? 8202)
   || (c =? 8232) || (c =? 8233) || (c =? 8239) || (c =? 8287)
   || (c =? 12288))%N.

(** [s.lstrip()], [s.rstrip()], [s.strip()]. *)
Fixpoint lstrip (s : str) : str :=
  match s with
  | c :: t => if isspace c then lstrip t else s
  | [] => []
  end.

Definition rstrip (s : str) : str := rev (lstrip (rev s)).

Definition strip (s : str) : str := rstrip (lstrip s).

(** [s.split('\n')]: always at least one piece. *)
Fixpoint split_nl (s : str) : list str :=
  match s with
  | [] => [[]]
  | c :: t =>
      if (c =? nl)%N then [] :: split_nl t
      else match split_nl t with
           | l :: ls => (c :: l) :: ls
           | [] => [[c]]
           end
  end.

(** [sep.join(parts)]. *)
Fixpoint join (sep : str) (parts : list str) : str :=
  match parts with
  | [] => []
  | [p] => p
  | p :: ps => p ++ sep ++ join sep ps
  end.

(** Truthiness of a string: [bool(s)]. *)
Definition nonempty (s : str) : bool :=
  match s with [] => false | _ => true end.

Definition has_nl (s : str) : bool := existsb (N.eqb nl) s.

End Str.

Import Str.

(** ** Exceptions and the [result] monad *)

Inductive exn : Type :=
  | ConnectionError (msg : str)        (* builtin, raised by the connector *)
  | RuntimeError (msg : str)           (* builtin, raised by the connector *)
  | RequestError (detail : str)        (* httpx.RequestError and subclasses *)
  | HTTPStatusError (status : Z) (body : str)   (* httpx.HTTPStatusError *)
  | JSONDecodeError                    (* json.JSONDecodeError *)
  | AttributeError
  | TypeError
  | ValidationError                    (* pydantic.ValidationError *)
  | ZeroDivisionError
  | OtherError (name : str).           (* any other exception class *)

Inductive result (A : Type) : Type :=
  | Return (a : A)
  | Raise (e : exn).

Arguments Return {A} a.
Arguments Raise {A} e.

Definition bind {A B} (m : result A) (f : A -> result B) : result B :=
  match m with
  | Return a => f a
  | Raise e => Raise e
  end.

Declare Scope result_scope.
Delimit Scope result_scope with result.
Notation "'let*' x := m 'in' k" := (bind m (fun x => k))
  (at level 10, x name, m at level 100, k at level 200) : result_scope.
Local Open Scope result_scope.

(** [try: body except <classes>: handler]: [handler e] is [Some r] when one
    of the [except] clauses matches [e], and [None] when [e] propagates. *)
Definition try_except {A} (body : result A)
    (handler : exn -> option (result A)) : result A :=
  match body with
  | Return a => Return a
  | Raise e => match handler e with
               | Some r => r
               | None => Raise e
               end
  end.

(** Monadic fold, the shape of a [for] loop whose body may raise. *)
Fixpoint foldM {A S} (f : S -> A -> result S) (s : S) (l : list A) : result S :=
  match l with
  | [] => Return s
  | x :: t => let* s' := f s x in foldM f s' t
  end.

Definition is_return {A} (r : result A) : bool :=
  match r with Return _ => true | Raise _ => false end.

(** ** Python values built by [json.loads] *)

(** A float is kept as the decimal its lexeme denotes
    ([(-1)^neg * mant * 10^exp10]), or as one of the three constants the
    decoder accepts besides. *)
Inductive pyfloat : Type :=
  | FDec (neg : bool) (mant : N) (exp10 : Z)
  | FNaN
  | FInf (neg : bool).

#[warnings="-register-all"] Inductive value : Type :=
  | PNone
  | PBool (b : bool)
  | PInt (z : Z)
  | PFloat (f : pyfloat)
  | PStr (s : str)
  | PList (l : list value)
  | PDict (d : list (str * value)).

Definition dict := list (str * value).

(** [d.get(k)] as an option, and [d.get(k, default)]. *)
Fixpoint dict_lookup (d : dict) (k : str) : option value :=
  match d with
  | [] => None
  | (k', v) :: t => if Str.eqb k k' then Some v else dict_lookup t k
  end.

Definition dict_get (d : dict) (k : str) (default : value) : value :=
  match dict_lookup d k with
  | Some v => v
  | None => default
  end.

(** [d[k] = v]: an existing key keeps its place. *)
Fixpoint dict_set (d : dict) (k : str) (v : value) : dict :=
  match d with
  | [] => [(k, v)]
  | (k', v') :: t =>
      if Str.eqb k k' then (k', v) :: t else (k', v') :: dict_set t k v
  end.

(** ** [json.loads]

    The decoder of the standard library, as a lexer followed by a stack
    parser over the tokens.  Every rejection is a [JSONDecodeError].  The
    limits of the interpreter (recursion depth, digits of an integer
    literal) are left out. *)

Module Json.

Inductive token : Type :=
  | TLBrace | TRBrace | TLBrack | TRBrack | TColon | TComma
  | TScalar (v : value).

Definition is_ws (c : char) : bool :=
  ((c =? 32) || (c =? 9) || (c =? 10) || (c =? 13))%N.

Definition digit_val (c : char) : option N :=
  if ((48 <=? c) && (c <=? 57))%N then Some (c - 48)%N else None.

Definition hex_val (c : char) : option N :=
  if ((48 <=? c) && (c <=? 57))%N then Some (c - 48)%N
  else if ((97 <=? c) && (c <=? 102))%N then Some (c - 87)%N
  else if ((65 <=? c) && (c <=? 70))%N then Some (c - 55)%N
  else None.

Definition hex4 (a b c d : char) : option N :=
  match hex_val a, hex_val b, hex_val c, hex_val d with
  | Some x, Some y, Some z, Some w =>
      Some (((x * 16 + y) * 16 + z) * 16 + w)%N
  | _, _, _, _ => None
  end.

Definition simple_escape (c : char) : option char :=
  match c with
  | 34 => Some 34 | 92 => Some 92 | 47 => Some 47
  | 98 => Some 8 | 102 => Some 12 | 110 => Some 10
  | 114 => Some 13 | 116 => Some 9
  | _ => None
  end%N.

Definition push (c : char) (r : option (str * str)) : option (str * str) :=
  match r with
  | Some (s, rest) => Some (c :: s, rest)
  | None => None
  end.

(** The body of a string literal, after the opening quote (strict mode:
    a raw control character is rejected). *)
Fixpoint scan_string (s : str) : option (str * str) :=
  match s with
  | [] => None
  | 34%N :: rest => Some ([], rest)
  | 92%N :: 117%N :: a :: b :: c :: d :: rest2 =>
      match hex4 a b c d with
      | None => None
      | Some u =>
          if ((55296 <=? u) && (u <=? 56319))%N then
            match rest2 with
            | 92%N :: 117%N :: a' :: b' :: c' :: d' :: rest3 =>
                match hex4 a' b' c' d' with
                | None => None
                | Some u2 =>
                    if ((56320 <=? u2) && (u2 <=? 57343))%N
                    then push (65536 + (u - 55296) * 1024 + (u2 - 56320))%N
                              (scan_string rest3)
                    else push u (scan_string rest2)
                end
            | _ => push u (scan_string rest2)
            end
          else push u (scan_string rest2)
      end
  | 92%N :: e :: rest1 =>
      match simple_escape e with
      | Some c => push c (scan_string rest1)
      | None => None
      end
  | c :: rest => if (c <? 32)%N then None else push c (scan_string rest)
  end.

(** The longest prefix of decimal digits. *)
Fixpoint digits (s : str) : list N * str :=
  match s with
  | c :: t =>
      match digit_val c with
      | Some d => let '(ds, rest) := digits t in (d :: ds, rest)
      | None => ([], s)
      end
  | [] => ([], [])
  end.

Definition nat_of_digits (ds : list N) : N :=
  fold_left (fun acc d => (acc * 10 + d)%N) ds 0%N.

(** The integer part: a single 0, or a non-zero digit and more digits. *)
Definition int_part (s : str) : option (list N * str) :=
  match s with
  | 48%N :: rest => Some ([0%N], rest)
  | c :: _ =>
      match digit_val c with
      | Some _ => Some (digits s)
      | None => None
      end
  | [] => None
  end.

(** The optional fraction: a dot and at least one digit. *)
Definition frac_part (s : str) : option (list N * str) :=
  match s with
  | 46%N :: t =>
      match digits t with
      | (d :: ds, rest) => Some (d :: ds, rest)
      | ([], _) => None
      end
  | _ => None
  end.

(** The optional exponent: e or E, an optional sign, at least one digit. *)
Definition exp_part (s : str) : option (Z * str) :=
  match s with
  | c :: t =>
      if ((c =? 101) || (c =? 69))%N then
        let '(sgn, t') :=
          match t with
          | 45%N :: u => (-1, u)
          | 43%N :: u => (1, u)
          | _ => (1, t)
          end in
        match digits t' with
        | (d :: ds, rest) =>
            Some (sgn * Z.of_N (nat_of_digits (d :: ds)), rest)
        | ([], _) => None
        end
      else None
  | [] => None
  end.

Definition scan_number (s : str) : option (value * str) :=
  let '(neg, s1) :=
    match s with
    | 45%N :: t => (true, t)
    | _ => (false, s)
    end in
  match int_part s1 with
  | None => None
  | Some (ip, s2) =>
      let '(fp, s3) :=
        match frac_part s2 with
        | Some (fd, r) => (Some fd, r)
        | None => (None, s2)
        end in
      let '(ep, s4) :=
        match exp_part s3 with
        | Some (e, r) => (Some e, r)
        | None => (None, s3)
        end in
      match fp, ep with
      | None, None =>
          let n := Z.of_N (nat_of_digits ip) in
          Some (PInt (if neg then - n else n), s4)
      | _, _ =>
          let fd := default [] fp in
          let e := default 0 ep in
          Some (PFloat (FDec neg (nat_of_digits (ip ++ fd))
                             (e - Z.of_nat (length fd))), s4)
      end
  end.

(** [s.startswith(p)], returning what follows [p]. *)
Fixpoint strip_prefix (p s : str) : option str :=
  match p, s with
  | [], _ => Some s
  | a :: p', b :: s' => if (a =? b)%N then strip_prefix p' s' else None
  | _ :: _, [] => None
  end.

Definition keyword (kw : string) (v : value) (s : str)
  : option (token * str) :=
  match strip_prefix (lit kw) s with
  | Some rest => Some (TScalar v, rest)
  | None => None
  end.

Definition or_else {A} (a b : option A) : option A :=
  match a with Some _ => a | None => b end.

(** One token at the head of [s] (which does not start with white
    space), and the rest of the input. *)
Definition lex_token (s : str) : option (token * str) :=
  match s with
  | [] => None
  | c :: t =>
      match c with
      | 123 => Some (TLBrace, t)
      | 125 => Some (TRBrace, t)
      | 91 => Some (TLBrack, t)
      | 93 => Some (TRBrack, t)
      | 58 => Some (TColon, t)
      | 44 => Some (TComma, t)
      | 34 =>
          match scan_string t with
          | Some (chars, rest) => Some (TScalar (PStr chars), rest)
          | None => None
          end
      | 110 => keyword "null" PNone s
      | 116 => keyword "true" (PBool true) s
      | 102 => keyword "false" (PBool false) s
      | 78 => keyword "NaN" (PFloat FNaN) s
      | 73 => keyword "Infinity" (PFloat (FInf false)) s
      | _ =>
          or_else
            (match scan_number s with
             | Some (v, rest) => Some (TScalar v, rest)
             | None => None
             end)
            (keyword "-Infinity" (PFloat (FInf true)) s)
      end%N
  end.

(** The token list of a text; [skip] counts the characters of the current
    token still to be passed over. *)
Fixpoint tokenize (skip : nat) (s : str) : option (list token) :=
  match s with
  | [] => Some []
  | c :: t =>
      match skip with
      | S n => tokenize n t
      | O =>
          if is_ws c then tokenize 0 t
          else match lex_token (c :: t) with
               | None => None
               | Some (tok, rest) =>
                   match tokenize (length t - length rest) t with
                   | Some toks => Some (tok :: toks)
                   | None => None
                   end
               end
      end
  end.

(** Containers under construction, innermost first. *)
Inductive frame : Type :=
  | InArr (items : list value)
  | InObj (d : dict)
  | InObjKey (d : dict) (k : str).

Inductive mode : Type :=
  | MValue          (* a value *)
  | MValueOrClose   (* a value or the bracket closing an empty array *)
  | MKeyOrClose     (* a key or the brace closing an empty object *)
  | MKey            (* a key *)
  | MColon          (* the colon after a key *)
  | MAfter          (* a comma or the closing bracket / brace *)
  | MDone (v : value).

(** A completed value goes to the enclosing container, or is the result. *)
Definition deliver (v : value) (st : list frame)
  : option (mode * list frame) :=
  match st with
  | [] => Some (MDone v, [])
  | InArr items :: st' => Some (MAfter, InArr (items ++ [v]) :: st')
  | InObjKey d k :: st' => Some (MAfter, InObj (dict_set d k v) :: st')
  | InObj _ :: _ => None
  end.

Definition step (m : mode) (st : list frame) (tok : token)
  : option (mode * list frame) :=
  match m, tok with
  | (MValue | MValueOrClose), TScalar v => deliver v st
  | (MValue | MValueOrClose), TLBrack => Some (MValueOrClose, InArr [] :: st)
  | (MValue | MValueOrClose), TLBrace => Some (MKeyOrClose, InObj [] :: st)
  | MValueOrClose, TRBrack =>
      match st with
      | InArr items :: st' => deliver (PList items) st'
      | _ => None
      end
  | (MKeyOrClose | MKey), TScalar (PStr k) =>
      match st with
      | InObj d :: st' => Some (MColon, InObjKey d k :: st')
      | _ => None
      end
  | MKeyOrClose, TRBrace =>
      match st with
      | InObj d :: st' => deliver (PDict d) st'
      | _ => None
      end
  | MColon, TColon => Some (MValue, st)
  | MAfter, TComma =>
      match st with
      | InArr _ :: _ => Some (MValue, st)
      | InObj _ :: _ => Some (MKey, st)
      | _ => None
      end
  | MAfter, TRBrack =>
      match st with
      | InArr items :: st' => deliver (PList items) st'
      | _ => None
      end
  | MAfter, TRBrace =>
      match st with
      | InObj d :: st' => deliver (PDict d) st'
      | _ => None
      end
  | _, _ => None
  end.

Fixpoint parse_tokens (m : mode) (st : list frame) (ts : list token)
  : option value :=
  match ts with
  | [] => match m with MDone v => Some v | _ => None end
  | tok :: ts' =>
      match step m st tok with
      | Some (m', st') => parse_tokens m' st' ts'
      | None => None
      end
  end.

Definition decode (s : str) : option value :=
  match tokenize 0 s with
  | Some ts => parse_tokens MValue [] ts
  | None => None
  end.

End Json.

Definition json_loads (s : str) : result value :=
  match Json.decode s with
  | Some v => Return v
  | None => Raise JSONDecodeError
  end.

(** ** The connector: [lex_llm_connector.py] *)

(** The dictionary that [_parse_ndjson_stream] returns and that is unpacked
    into the constructor of [WorkflowResult]: one field per key. *)
Module ResultData.
Record t : Type := mk {
  conversation_id : value;
  run_id : value;
  response : str;
  sources : value;
  conversation_history : value
}.
End ResultData.

(** The pydantic models. *)
Module Source.
Record t : Type := mk {
  id : Z + str;       (* int | str *)
  title : str;
  url : str
}.
End Source.

Module ConversationMessage.
Record t : Type := mk {
  role : str;
  content : str
}.
End ConversationMessage.

Module WorkflowResult.
Record t : Type := mk {
  conversation_id : str;
  run_id : str;
  response : str;
  sources : list Source.t;
  conversation_history : list ConversationMessage.t
}.
End WorkflowResult.

(** The local variables of [_parse_ndjson_stream]. *)
Record parse_state : Type := mk_state {
  response_chunks : list value;
  st_sources : value;
  st_conversation_history : value;
  st_conversation_id : value;
  st_run_id : value
}.

Definition initial_state : parse_state :=
  {| response_chunks := [];
     st_sources := PList [];
     st_conversation_history := PList [];
     st_conversation_id := PStr [];
     st_run_id := PStr [] |}.

(** [v.get]: only a dict has the attribute. *)
Definition get_of (v : value) : result dict :=
  match v with
  | PDict d => Return d
  | _ => Raise AttributeError
  end.

(** [v == "literal"] for a decoded value [v]. *)
Definition eq_str (v : value) (s : string) : bool :=
  match v with
  | PStr s' => Str.eqb s' (lit s)
  | _ => false
  end.

(** [sep.join(items)]: every item must be a [str]. *)
Fixpoint str_items (items : list value) : result (list str) :=
  match items with
  | [] => Return []
  | PStr s :: t => let* r := str_items t in Return (s :: r)
  | _ :: _ => Raise TypeError
  end.

Definition str_join (sep : str) (items : list value) : result str :=
  let* parts := str_items items in Return (join sep parts).

(** The [if / elif] chain on [event_type] (lines 132-149). *)
Definition handle_event (st : parse_state) (event : value)
  : result parse_state :=
  let* ev := get_of event in
  let event_type := dict_get ev (lit "event") PNone in
  if eq_str event_type "stream_start" then
    Return {| response_chunks := response_chunks st;
              st_sources := st_sources st;
              st_conversation_history := st_conversation_history st;
              st_conversation_id := dict_get ev (lit "conversation_id") (PStr []);
              st_run_id := dict_get ev (lit "run_id") (PStr []) |}
  else if eq_str event_type "sources" then
    Return {| response_chunks := response_chunks st;
              st_sources := dict_get ev (lit "data") (PList []);
              st_conversation_history := st_conversation_history st;
              st_conversation_id := st_conversation_id st;
              st_run_id := st_run_id st |}
  else if eq_str event_type "text_chunk" then
    Return {| response_chunks :=
                response_chunks st ++ [dict_get ev (lit "data") (PStr [])];
              st_sources := st_sources st;
              st_conversation_history := st_conversation_history st;
              st_conversation_id := st_conversation_id st;
              st_run_id := st_run_id st |}
  else if eq_str event_type "stream_end" then
    let* data := get_of (dict_get ev (lit "data") (PDict [])) in
    Return {| response_chunks := response_chunks st;
              st_sources := st_sources st;
              st_conversation_history :=
                dict_get data (lit "conversation_history") (PList []);
              st_conversation_id := st_conversation_id st;
              st_run_id := st_run_id st |}
  else Return st.

(** One iteration of the [for line in ...] loop (lines 127-149). *)
Definition loop_body (st : parse_state) (line : str) : result parse_state :=
  if negb (nonempty line) then Return st
  else
    let* event := json_loads line in
    handle_event st event.

Definition _parse_ndjson_stream (ndjson_text : str) : result ResultData.t :=
  let* st := foldM loop_body initial_state (split_nl (strip ndjson_text)) in
  let* response := str_join [] (response_chunks st) in
  Return {| ResultData.conversation_id := st_conversation_id st;
            ResultData.run_id := st_run_id st;
            ResultData.response := response;
            ResultData.sources := st_sources st;
            ResultData.conversation_history := st_conversation_history st |}.

(** *** Validation by the pydantic models

    Inputs are values decoded from JSON.  A [str] field takes a string only.
    The union [int | str] takes an integer or a string as it is and, in lax
    mode, a boolean or a float without fractional part as an integer; the
    float is read as the decimal of its lexeme.  Keys a model does not
    declare are ignored. *)

Definition validate_str (v : value) : option str :=
  match v with
  | PStr s => Some s
  | _ => None
  end.

Definition float_as_int (f : pyfloat) : option Z :=
  match f with
  | FDec neg m e =>
      let sign := if neg then -1 else 1 in
      if 0 <=? e then Some (sign * Z.of_N m * 10 ^ e)
      else if Z.of_N m mod 10 ^ (- e) =? 0
           then Some (sign * (Z.of_N m / 10 ^ (- e)))
           else None
  | _ => None
  end.

Definition validate_int_or_str (v : value) : option (Z + str) :=
  match v with
  | PInt z => Some (inl z)
  | PStr s => Some (inr s)
  | PBool b => Some (inl (if b then 1 else 0))
  | PFloat f => inl <$> float_as_int f
  | _ => None
  end.

Definition validate_field {A} (f : value -> option A) (d : dict) (k : string)
  : option A :=
  dict_lookup d (lit k) ≫= f.

Definition validate_Source (v : value) : option Source.t :=
  match v with
  | PDict d =>
      i ← validate_field validate_int_or_str d "id";
      t ← validate_field validate_str d "title";
      u ← validate_field validate_str d "url";
      Some (Source.mk i t u)
  | _ => None
  end.

Definition validate_ConversationMessage (v : value)
  : option ConversationMessage.t :=
  match v with
  | PDict d =>
      r ← validate_field validate_str d "role";
      c ← validate_field validate_str d "content";
      Some (ConversationMessage.mk r c)
  | _ => None
  end.

Definition validate_list {A} (f : value -> option A) (v : value)
  : option (list A) :=
  match v with
  | PList l => mapM f l
  | _ => None
  end.

(** The constructor call of [WorkflowResult] on the unpacked dictionary. *)
Definition WorkflowResult_init (rd : ResultData.t) : result WorkflowResult.t :=
  match
    (cid ← validate_str (ResultData.conversation_id rd);
     rid ← validate_str (ResultData.run_id rd);
     srcs ← validate_list validate_Source (ResultData.sources rd);
     hist ← validate_list validate_ConversationMessage
               (ResultData.conversation_history rd);
     Some (WorkflowResult.mk cid rid (ResultData.response rd) srcs hist))
  with
  | Some r => Return r
  | None => Raise ValidationError
  end.

(** *** HTTP *)

Record Response : Type := mk_response {
  status_code : Z;
  text : str
}.

(** An [httpx.AsyncClient]: what each request of the call yields. *)
Record AsyncClient : Type := mk_client {
  post : str -> value -> result Response;
  get : str -> result Response
}.

Definition is_success (r : Response) : bool :=
  (200 <=? status_code r) && (status_code r <=? 299).

Definition raise_for_status (r : Response) : result unit :=
  if is_success r then Return tt
  else Raise (HTTPStatusError (status_code r) (text r)).

Record LexLLMConnector : Type := mk_connector {
  base_url : str
}.

Definition run_url (self : LexLLMConnector) (workflow_id : str) : str :=
  base_url self ++ lit "/workflows/" ++ workflow_id ++ lit "/run".

(** [conversation_history or []] *)
Definition or_empty (h : option (list value)) : value :=
  match h with
  | Some l => PList l
  | None => PList []
  end.

Definition run_payload (user_input conversation_id : str)
    (conversation_history : option (list value)) : value :=
  PDict [(lit "user_input", PStr user_input);
         (lit "conversation_id", PStr conversation_id);
         (lit "conversation_history", or_empty conversation_history)].

(** The body of the [try] block once a success response has arrived. *)
Definition decode_response (resp : Response) : result WorkflowResult.t :=
  let* result_data := _parse_ndjson_stream (text resp) in
  WorkflowResult_init result_data.

Definition connect_message (self : LexLLMConnector) (e : str) : str :=
  lit "Failed to connect to lex-llm at " ++ base_url self ++ lit ": " ++ e.

Definition failed_message (body : str) : str :=
  lit "Workflow execution failed: " ++ body.

Definition run_workflow (client : AsyncClient) (self : LexLLMConnector)
    (workflow_id user_input conversation_id : str)
    (conversation_history : option (list value))
  : result WorkflowResult.t :=
  try_except
    (let* response :=
       post client (run_url self workflow_id)
         (run_payload user_input conversation_id conversation_history) in
     let* _ := raise_for_status response in
     let* result_data := _parse_ndjson_stream (text response) in
     WorkflowResult_init result_data)
    (fun e =>
       match e with
       | RequestError detail =>
           Some (Raise (ConnectionError (connect_message self detail)))
       | HTTPStatusError _ body =>
           Some (Raise (RuntimeError (failed_message body)))
       | _ => None
       end).

(** What the transport can yield for a request: a response, whatever its
    status, or a failure, which httpx reports as a [RequestError]. *)
Definition transport_outcome (o : result Response) : Prop :=
  match o with
  | Return _ => True
  | Raise (RequestError _) => True
  | Raise _ => False
  end.

(** The exceptions of decoding and validation. *)
Definition decode_error (e : exn) : bool :=
  match e with
  | JSONDecodeError | AttributeError | TypeError | ValidationError => true
  | _ => false
  end.

(** A client whose every request is answered with the same response. *)
Definition replying (status : Z) (body : str) : AsyncClient :=
  {| post := fun _ _ => Return (mk_response status body);
     get := fun _ => Return (mk_response status body) |}.

(** A client whose every request fails with the given exception. *)
Definition failing (e : exn) : AsyncClient :=
  {| post := fun _ _ => Raise e;
     get := fun _ => Raise e |}.

Definition localhost : LexLLMConnector :=
  {| base_url := lit "http://localhost:8001" |}.

Definition health_url (self : LexLLMConnector) : str :=
  base_url self ++ lit "/health".

(** A bare [except:] catches every exception. *)
Definition health_check (client : AsyncClient) (self : LexLLMConnector)
  : result bool :=
  try_except
    (let* response := get client (health_url self) in
     Return (status_code response =? 200))
    (fun _ => Some (Return false)).

(** ** Lines of a body *)

Module Lines.

Definition nonblank (ls : list str) : list str := List.filter nonempty ls.

(** The lines the loop of [_parse_ndjson_stream] decodes. *)
Definition ndjson_lines (body : str) : list str :=
  nonblank (split_nl (strip body)).

(** The body with its empty lines removed. *)
Definition remove_blank_lines (body : str) : str :=
  join [nl] (nonblank (split_nl body)).

Definition all_space (l : str) : bool := forallb isspace l.

Definition starts_with_space (l : str) : bool :=
  match l with
  | c :: _ => isspace c
  | [] => false
  end.

Definition ends_with_space (l : str) : bool := starts_with_space (rev l).

(** A line without white space at either end. *)
Definition tight (l : str) : bool :=
  negb (starts_with_space l) && negb (ends_with_space l).

(** What [lstrip] does to a body, seen on its non-blank lines. *)
Fixpoint lstrip_lines (ls : list str) : list str :=
  match ls with
  | [] => []
  | l :: t => if all_space l then lstrip_lines t else lstrip l :: t
  end.

Definition mirror (ls : list str) : list str := rev (List.map (@rev N) ls).

Definition rstrip_lines (ls : list str) : list str :=
  mirror (lstrip_lines (mirror ls)).

Definition trim_lines (ls : list str) : list str :=
  rstrip_lines (lstrip_lines ls).

End Lines.

(** ** The stream decoder as a fold over events *)

Module Stream.
Import Lines.

(** Decoding one non-empty line and dispatching on it. *)
Definition decode_step (st : parse_state) (line : str) : result parse_state :=
  let* event := json_loads line in
  handle_event st event.

(** The [return] statement (lines 151-157). *)
Definition finish (st : parse_state) : result ResultData.t :=
  let* response := str_join [] (response_chunks st) in
  Return {| ResultData.conversation_id := st_conversation_id st;
            ResultData.run_id := st_run_id st;
            ResultData.response := response;
            ResultData.sources := st_sources st;
            ResultData.conversation_history := st_conversation_history st |}.

(** The events of a body: its decoded lines, when all of them decode. *)
Fixpoint decode_all (ls : list str) : result (list value) :=
  match ls with
  | [] => Return []
  | l :: t =>
      let* e := json_loads l in
      let* es := decode_all t in
      Return (e :: es)
  end.

Definition stream_events (body : str) : result (list value) :=
  decode_all (ndjson_lines body).

(** The [event] discriminator and the [data] payload of an event. *)
Definition event_tag (e : value) : value :=
  match e with
  | PDict ev => dict_get ev (lit "event") PNone
  | _ => PNone
  end.

Definition event_data (e : value) (default : value) : value :=
  match e with
  | PDict ev => dict_get ev (lit "data") default
  | _ => default
  end.

Definition has_tag (tag : string) (e : value) : bool :=
  eq_str (event_tag e) tag.

Definition recognized (e : value) : bool :=
  has_tag "stream_start" e || has_tag "sources" e
  || has_tag "text_chunk" e || has_tag "stream_end" e.

Definition is_dict (v : value) : bool :=
  match v with PDict _ => true | _ => false end.

Definition is_str (v : value) : bool :=
  match v with PStr _ => true | _ => false end.

(** An event the decoder can take in: a JSON object whose text fragment,
    if it is a "text_chunk", is a string and whose payload, if it is a
    "stream_end", is an object. *)
Definition event_ok (e : value) : bool :=
  is_dict e
  && (if has_tag "stream_start" e then true
      else if has_tag "sources" e then true
      else if has_tag "text_chunk" e then is_str (event_data e (PStr []))
      else if has_tag "stream_end" e then is_dict (event_data e (PDict []))
      else true).

(** The payloads of the "text_chunk" events, in order. *)
Definition text_chunks (evs : list value) : list value :=
  List.map (fun e => event_data e (PStr []))
           (List.filter (has_tag "text_chunk") evs).

(** The conversation history a "stream_end" event carries. *)
Definition event_history (e : value) : value :=
  match event_data e (PDict []) with
  | PDict data => dict_get data (lit "conversation_history") (PList [])
  | _ => PList []
  end.

(** A line that decodes to an object with no recognized tag. *)
Definition unrecognized_line (l : str) : bool :=
  match json_loads l with
  | Return e => is_dict e && negb (recognized e)
  | Raise _ => false
  end.

(** Sample lines for the worked examples. *)
Definition start_line : str :=
  qlit "{'event':'stream_start','conversation_id':'c1','run_id':'r1'}".
Definition chunk_line (s : string) : str :=
  qlit "{'event':'text_chunk','data':'" ++ lit s ++ qlit "'}".
Definition sources_line (title : string) : str :=
  qlit "{'event':'sources','data':[{'id':1,'title':'" ++ lit title
    ++ qlit "','url':'u'}]}".
Definition end_line (content : string) : str :=
  qlit "{'event':'stream_end','data':{'conversation_history':[{'role':'user','content':'"
    ++ lit content ++ qlit "'}]}}".
Definition step_line : str := qlit "{'event':'workflow_step','name':'retrieve'}".

Definition sample_lines : list str :=
  [start_line; chunk_line "Sne "; sources_line "old"; step_line;
   chunk_line "er "; sources_line "new"; end_line "first"; chunk_line "hvid.";
   end_line "second"].

Definition sample_body : str := join [nl] sample_lines.

Definition events_of (body : str) : list value :=
  match stream_events body with
  | Return evs => evs
  | Raise _ => []
  end.

End Stream.

(** ** Regular expressions: the part of [re] the metrics use

    A backtracking matcher with the priorities of [re]: alternatives left to
    right, a lazy star trying the shortest repetition first, a greedy plus
    the longest.  The character before the current position is carried
    along for the word boundary. *)

Module Re.

Inductive cset : Type :=
  | CAny                      (* .   every character but the newline *)
  | CWord                     (* \w  *)
  | COneOf (cs : list char).  (* [...] *)

Inductive regex : Type :=
  | RLit (s : str)            (* a literal string *)
  | RBoundary                 (* \b *)
  | RSeq (r1 r2 : regex)
  | RAlt (r1 r2 : regex)
  | RLazyStar (c : cset)      (* c*? *)
  | RPlus (c : cset).         (* c+ *)

Section Matcher.

(** [Py_UNICODE_ISALNUM], the table behind [\w]. *)
Variable isalnum : char -> bool.

Definition is_word (c : char) : bool := isalnum c || (c =? 95)%N.

Definition in_cset (cs : cset) (c : char) : bool :=
  match cs with
  | CAny => negb (c =? nl)%N
  | CWord => is_word c
  | COneOf l => existsb (N.eqb c) l
  end.

Definition word_opt (c : option char) : bool :=
  match c with
  | Some c => is_word c
  | None => false
  end.

Definition at_boundary (prev : option char) (s : str) : bool :=
  xorb (word_opt prev) (word_opt (head s)).

(** A continuation takes the character before the position and the rest
    of the input, and gives what remains after the whole match. *)
Definition cont : Type := option char -> str -> option str.

Fixpoint match_lit (l : str) (k : cont) (prev : option char) (s : str)
  : option str :=
  match l with
  | [] => k prev s
  | a :: l' =>
      match s with
      | b :: s' => if (a =? b)%N then match_lit l' k (Some b) s' else None
      | [] => None
      end
  end.

Fixpoint lazy_star (cs : cset) (k : cont) (prev : option char) (s : str)
  : option str :=
  match k prev s with
  | Some rest => Some rest
  | None =>
      match s with
      | c :: t => if in_cset cs c then lazy_star cs k (Some c) t else None
      | [] => None
      end
  end.

Fixpoint greedy_star (cs : cset) (k : cont) (prev : option char) (s : str)
  : option str :=
  match s with
  | c :: t =>
      if in_cset cs c then
        match greedy_star cs k (Some c) t with
        | Some rest => Some rest
        | None => k prev s
        end
      else k prev s
  | [] => k prev []
  end.

Fixpoint rmatch (r : regex) (k : cont) (prev : option char) (s : str)
  : option str :=
  match r with
  | RLit l => match_lit l k prev s
  | RBoundary => if at_boundary prev s then k prev s else None
  | RSeq r1 r2 => rmatch r1 (rmatch r2 k) prev s
  | RAlt r1 r2 =>
      match rmatch r1 k prev s with
      | Some rest => Some rest
      | None => rmatch r2 k prev s
      end
  | RLazyStar cs => lazy_star cs k prev s
  | RPlus cs =>
      match s with
      | c :: t => if in_cset cs c then greedy_star cs k (Some c) t else None
      | [] => None
      end
  end.

(** A match starting at the head of [s]: what follows it. *)
Definition match_here (r : regex) (prev : option char) (s : str) : option str :=
  rmatch r (fun _ rest => Some rest) prev s.

(** The text of a match of [s] that leaves [rest]. *)
Definition matched (s rest : str) : str := take (length s - length rest) s.

(** [re.search(r, s)]: the leftmost match, if any. *)
Fixpoint search_from (r : regex) (prev : option char) (s : str) : option str :=
  match match_here r prev s with
  | Some rest => Some (matched s rest)
  | None =>
      match s with
      | c :: t => search_from r (Some c) t
      | [] => None
      end
  end.

Definition search (r : regex) (s : str) : option str := search_from r None s.

(** [re.findall(r, s)] for a pattern without groups: the successive
    leftmost matches, none overlapping.  [skip] counts the characters of the
    last match still to be passed over.  (None of the patterns here matches
    the empty string.) *)
Fixpoint findall_from (r : regex) (skip : nat) (prev : option char) (s : str)
  : list str :=
  match skip with
  | S n =>
      match s with
      | c :: t => findall_from r n (Some c) t
      | [] => []
      end
  | O =>
      match match_here r prev s with
      | Some rest =>
          matched s rest ::
          match s with
          | c :: t => findall_from r (length (matched s rest) - 1) (Some c) t
          | [] => []
          end
      | None =>
          match s with
          | c :: t => findall_from r 0 (Some c) t
          | [] => []
          end
      end
  end.

Definition findall (r : regex) (s : str) : list str := findall_from r 0 None s.

(** [re.split(r, s)] for a pattern without groups that matches no empty
    string: the pieces between the successive matches.  [cur] is the piece
    under construction, reversed. *)
Fixpoint split_from (r : regex) (skip : nat) (cur : str) (prev : option char)
    (s : str) : list str :=
  match skip with
  | S n =>
      match s with
      | c :: t => split_from r n cur (Some c) t
      | [] => [rev cur]
      end
  | O =>
      match s with
      | [] => [rev cur]
      | c :: t =>
          match match_here r prev s with
          | Some rest =>
              match length (matched s rest) with
              | O => split_from r 0 (c :: cur) (Some c) t
              | S n => rev cur :: split_from r n [] (Some c) t
              end
          | None => split_from r 0 (c :: cur) (Some c) t
          end
      end
  end.

Definition split (r : regex) (s : str) : list str := split_from r 0 [] None s.

(** Whether a search has found a match. *)
Definition found (o : option str) : bool :=
  match o with Some _ => true | None => false end.

(** The longest prefix of word characters, and what follows it. *)
Fixpoint take_word (s : str) : str :=
  match s with
  | c :: t => if is_word c then c :: take_word t else []
  | [] => []
  end.

Fixpoint drop_word (s : str) : str :=
  match s with
  | c :: t => if is_word c then drop_word t else s
  | [] => []
  end.

End Matcher.

(** The patterns of [metrics.py]. *)

(** A word: backslash-w, one or more times. *)
Definition word_pattern : regex := RPlus CWord.

(** A bracketed span: an opening bracket, any characters, as few as
    possible, and a closing bracket. *)
Definition bracket_pattern : regex :=
  RSeq (RLit (lit "[")) (RSeq (RLazyStar CAny) (RLit (lit "]"))).

(** The three Danish markers; the third letter of the first is U+00F8. *)
Definition ifolge : str := lit "if" ++ [248%N] ++ lit "lge".
Definition artikel : str := lit "artikel".
Definition kilde : str := lit "kilde".

(** [citation_patterns] of [calculate_answer_metrics]. *)
Definition citation_patterns : list regex :=
  [bracket_pattern; RLit ifolge; RLit artikel; RLit kilde].

(** The single pattern of [calculate_faithfulness_metrics]: the same four,
    as alternatives. *)
Definition citation_alternation : regex :=
  RAlt bracket_pattern (RAlt (RLit ifolge) (RAlt (RLit artikel) (RLit kilde))).

(** One or more of the full stop, the exclamation and the question mark. *)
Definition sentence_end : regex := RPlus (COneOf (lit ".!?")).

(** [claim_patterns]: one of nine verb forms between word boundaries. *)
Definition claim_patterns : regex :=
  RSeq RBoundary
    (RSeq (fold_right RAlt (RLit (lit "vil"))
             (List.map (fun w => RLit (lit w))
                ["er"; "var"; "har"; "havde"; "blev"; "bliver"; "kan"; "skal"]%string))
          RBoundary).

End Re.

(** ** The metrics: [metrics.py] *)

Record RetrievalMetrics : Type := mk_retrieval {
  num_sources : Z;
  avg_source_length : Q;
  source_diversity : Q
}.

Record AnswerMetrics : Type := mk_answer {
  answer_length : Z;
  citation_count : Z;
  answer_source_overlap : Q
}.

Record FaithfulnessMetrics : Type := mk_faithfulness {
  has_citations : bool;
  claims_count : Z
}.

Record EvaluationResult : Type := mk_evaluation {
  query : str;
  workflow_id : str;
  retrieval : RetrievalMetrics;
  answer : AnswerMetrics;
  faithfulness : FaithfulnessMetrics;
  response : str;
  sources : list dict
}.

(** The four arguments an [EvaluationResult] echoes. *)
Definition EvaluationResult_echo (er : EvaluationResult)
  : str * str * str * list dict :=
  (query er, workflow_id er, response er, sources er).

(** [a / b] on integers: the exact quotient, in lowest terms. *)
Definition true_div (a b : Z) : result Q :=
  if b =? 0 then Raise ZeroDivisionError
  else Return (Qred (inject_Z a / inject_Z b)).

(** [len(v)] *)
Definition py_len (v : value) : result Z :=
  match v with
  | PStr s => Return (Z.of_nat (length s))
  | PList l => Return (Z.of_nat (length l))
  | PDict d => Return (Z.of_nat (length d))
  | _ => Raise TypeError
  end.

Fixpoint mapM_result {A B} (f : A -> result B) (l : list A) : result (list B) :=
  match l with
  | [] => Return []
  | x :: t =>
      let* y := f x in
      let* ys := mapM_result f t in
      Return (y :: ys)
  end.

Definition sum_Z (l : list Z) : Z := fold_left Z.add l 0.

(** [s.get('title', '')] *)
Definition get_title (s : dict) : value := dict_get s (lit "title") (PStr []).

Definition len_Z {A} (l : list A) : Z := Z.of_nat (length l).

Module MetricsCalculator.
Section Metrics.

(** [str.lower] and the table of alphanumeric code points. *)
Variable lower : str -> str.
Variable isalnum : char -> bool.

(** [v.lower()]: only a [str] has the method. *)
Definition lower_of (v : value) : result str :=
  match v with
  | PStr s => Return (lower s)
  | _ => Raise AttributeError
  end.

(** [re.findall(r'\w+', s)] *)
Definition words (s : str) : list str := Re.findall isalnum Re.word_pattern s.

Definition calculate_retrieval_metrics (sources : list dict)
  : result RetrievalMetrics :=
  match sources with
  | [] =>
      Return {| num_sources := 0; avg_source_length := 0; source_diversity := 0 |}
  | _ :: _ =>
      let* lengths := mapM_result (fun s => py_len (get_title s)) sources in
      let* avg_length := true_div (sum_Z lengths) (len_Z sources) in
      let* joined := str_join [space] (List.map get_title sources) in
      let all_titles := lower joined in
      let words := words all_titles in
      let unique_words : gset str := list_to_set words in
      let* diversity :=
        match words with
        | _ :: _ => true_div (Z.of_nat (size unique_words)) (len_Z words)
        | [] => Return 0%Q
        end in
      Return {| num_sources := len_Z sources;
                avg_source_length := avg_length;
                source_diversity := diversity |}
  end.

(** The loop filling [source_words] (lines 108-111). *)
Definition add_title_words (source_words : gset str) (source : dict)
  : result (gset str) :=
  let* lowered := lower_of (get_title source) in
  let title_words := words lowered in
  Return (source_words ∪ list_to_set title_words).

Definition count_citations (response : str) : Z :=
  sum_Z (List.map
           (fun pattern => len_Z (Re.findall isalnum pattern (lower response)))
           Re.citation_patterns).

Definition calculate_answer_metrics (response : str) (sources : list dict)
  : result AnswerMetrics :=
  let citation_count := count_citations response in
  let response_words : gset str := list_to_set (words (lower response)) in
  let* source_words := foldM add_title_words ∅ sources in
  let* overlap :=
    if negb (bool_decide (response_words = ∅))
       && negb (bool_decide (source_words = ∅))
    then true_div (Z.of_nat (size (response_words ∩ source_words)))
                  (Z.of_nat (size response_words))
    else Return 0%Q in
  Return {| answer_length := len_Z response;
            citation_count := citation_count;
            answer_source_overlap := overlap |}.

Definition calculate_faithfulness_metrics (response : str) (sources : list dict)
  : result FaithfulnessMetrics :=
  let has_citations :=
    bool_decide (is_Some (Re.search isalnum Re.citation_alternation
                            (lower response))) in
  let sentences := Re.split isalnum Re.sentence_end response in
  let claims_count :=
    len_Z (List.filter
             (fun sent =>
                bool_decide (is_Some (Re.search isalnum Re.claim_patterns
                                        (lower sent))))
             sentences) in
  Return {| has_citations := has_citations; claims_count := claims_count |}.

Definition evaluate_response (query workflow_id response : str)
    (sources : list dict) : result EvaluationResult :=
  let* retrieval := calculate_retrieval_metrics sources in
  let* answer := calculate_answer_metrics response sources in
  let* faithfulness := calculate_faithfulness_metrics response sources in
  Return {| query := query;
            workflow_id := workflow_id;
            retrieval := retrieval;
            answer := answer;
            faithfulness := faithfulness;
            response := response;
            sources := sources |}.

End Metrics.
End MetricsCalculator.

(** The two tables on the code points below 256; above, [latin1_lower]
    changes nothing and [latin1_isalnum] holds nowhere. *)
Definition latin1_lower_char (c : char) : char :=
  if ((65 <=? c) && (c <=? 90)
      || (192 <=? c) && (c <=? 222) && negb (c =? 215))%N
  then (c + 32)%N else c.

Definition latin1_lower (s : str) : str := List.map latin1_lower_char s.

Definition latin1_isalnum (c : char) : bool :=
  ((48 <=? c) && (c <=? 57) || (65 <=? c) && (c <=? 90)
   || (97 <=? c) && (c <=? 122)
   || (c =? 170) || (c =? 178) || (c =? 179) || (c =? 181) || (c =? 185)
   || (c =? 186) || (188 <=? c) && (c <=? 190)
   || (192 <=? c) && (c <=? 214) || (216 <=? c) && (c <=? 246)
   || (248 <=? c) && (c <=? 255))%N.

(** A source record holding a title, an id and a url. *)
Definition titled (t : string) : dict :=
  [(lit "id", PInt 1); (lit "title", PStr (lit t)); (lit "url", PStr (lit "u"))].

(** The word sets the overlap is defined on. *)
Module MetricsSpec.
Section Spec.

Variable lower : str -> str.
Variable isalnum : char -> bool.

(** The title of a source record as text; a missing title is the empty
    string. *)
Definition title_text (s : dict) : str :=
  match get_title s with
  | PStr t => t
  | _ => []
  end.

Definition title_is_text (s : dict) : bool :=
  match get_title s with
  | PStr _ => true
  | _ => false
  end.

(** The word tokens of one lowercased text. *)
Definition tokens (t : str) : list str :=
  MetricsCalculator.words isalnum (lower t).

(** The word tokens of all titles, title after title. *)
Definition title_tokens (sources : list dict) : list str :=
  concat (List.map (fun s => tokens (title_text s)) sources).

Definition response_word_set (response : str) : gset str :=
  list_to_set (tokens response).

Definition source_word_set (sources : list dict) : gset str :=
  list_to_set (title_tokens sources).

(** The word tokens of the lowercased titles joined by spaces. *)
Definition joined_tokens (sources : list dict) : list str :=
  MetricsCalculator.words isalnum
    (lower (join [space] (List.map title_text sources))).

End Spec.
End MetricsSpec.

(** Sample inputs for the worked examples. *)
Definition snow_sources : list dict :=
  [titled "Sne og is"; [(lit "url", PStr (lit "u"))]; titled "Is og SNE"].

Definition cited_response : str :=
  lit "If" ++ [248%N] ++ lit "lge artikel [1] er sne hvid. Kilde: [2]".

(** ** Sorting and the composite ranking: [compare_workflows.py] *)

Module Sorting.
Section Sort.

Context {A K : Type}.

(** The [key] function and the comparison [<] on keys. *)
Variable key : A -> K.
Variable lt : K -> K -> bool.

(** [x] goes before the first element whose key is not below its own. *)
Fixpoint insert (x : A) (l : list A) : list A :=
  match l with
  | [] => [x]
  | y :: t => if lt (key y) (key x) then y :: insert x t else x :: y :: t
  end.

(** A stable sort into ascending order of keys. *)
Fixpoint stable_sort (l : list A) : list A :=
  match l with
  | [] => []
  | x :: t => insert x (stable_sort t)
  end.

(** [l.sort(key=key, reverse=reverse)].  With [reverse] the list is
    reversed, sorted and reversed again, which leaves elements with equal
    keys in their original order. *)
Definition list_sort (reverse : bool) (l : list A) : list A :=
  if reverse then rev (stable_sort (rev l)) else stable_sort l.

(** Two keys neither of which is below the other. *)
Definition same_key (a b : K) : bool := negb (lt a b) && negb (lt b a).

(** The elements whose key is the same as [k]. *)
Definition in_class (k : K) (x : A) : bool := same_key k (key x).

(** [a] is not above [b]. *)
Definition ascending (a b : A) : Prop := lt (key b) (key a) = false.

End Sort.
End Sorting.

Definition Qlt_bool (a b : Q) : bool := negb (Qle_bool b a).

(** The score of one result (lines 88-93). *)
Definition composite_score (result : EvaluationResult) : Q :=
  (inject_Z (num_sources (retrieval result)) * (2 # 10)
   + source_diversity (retrieval result) * (2 # 10)
   + inject_Z (citation_count (answer result)) * (3 # 10)
   + answer_source_overlap (answer result) * (3 # 10))%Q.

Definition ranking_entry (result : EvaluationResult) : str * Q :=
  (workflow_id result, composite_score result).

(** The list [ranked] after [ranked.sort(key=lambda x: x[1], reverse=True)]
    (lines 85-96). *)
Definition ranked (results : list EvaluationResult) : list (str * Q) :=
  Sorting.list_sort snd Qlt_bool true (List.map ranking_entry results).

(** The ranking is computed when more than one result came back (line 58). *)
Definition ranking (results : list EvaluationResult) : option (list (str * Q)) :=
  if 1 <? len_Z results then Some (ranked results) else None.

(** An evaluation result with the four metrics the score reads. *)
Definition scored (workflow : string) (n : Z) (d : Q) (c : Z) (o : Q)
  : EvaluationResult :=
  {| query := lit "Hvad er Aasiaat?";
     workflow_id := lit workflow;
     retrieval := {| num_sources := n; avg_source_length := 0;
                     source_diversity := d |};
     answer := {| answer_length := 0; citation_count := c;
                  answer_source_overlap := o |};
     faithfulness := {| has_citations := false; claims_count := 0 |};
     response := [];
     sources := [] |}.

(** ** The stream decoder, event by event *)

Module StreamSpec.
Import Stream.

(** An event on which [handle_event] does not raise: a JSON object whose
    payload, if it is a "stream_end", is an object. *)
Definition shape_ok (e : value) : bool :=
  is_dict e
  && (if has_tag "stream_end" e then is_dict (event_data e (PDict [])) else true).

(** [event.get(k, "")] *)
Definition event_field (e : value) (k : string) : value :=
  match e with
  | PDict ev => dict_get ev (lit k) (PStr [])
  | _ => PStr []
  end.

(** What [handle_event] does to the local variables when it returns. *)
Definition apply_event (st : parse_state) (e : value) : parse_state :=
  {| response_chunks := response_chunks st ++ text_chunks [e];
     st_sources :=
       if has_tag "sources" e then event_data e (PList []) else st_sources st;
     st_conversation_history :=
       if has_tag "stream_end" e then event_history e
       else st_conversation_history st;
     st_conversation_id :=
       if has_tag "stream_start" e then event_field e "conversation_id"
       else st_conversation_id st;
     st_run_id :=
       if has_tag "stream_start" e then event_field e "run_id"
       else st_run_id st |}.

(** The last event with a given tag. *)
Definition last_tagged (tag : string) (evs : list value) : option value :=
  last (List.filter (has_tag tag) evs).

Definition from_last (tag : string) (f : value -> value) (default : value)
    (evs : list value) : value :=
  match last_tagged tag evs with
  | Some e => f e
  | None => default
  end.

Definition chunk_text (v : value) : str :=
  match v with
  | PStr s => s
  | _ => []
  end.

(** The dictionary a well-formed stream is decoded to. *)
Definition decoded (evs : list value) : ResultData.t :=
  {| ResultData.conversation_id :=
       from_last "stream_start" (fun e => event_field e "conversation_id")
         (PStr []) evs;
     ResultData.run_id :=
       from_last "stream_start" (fun e => event_field e "run_id") (PStr []) evs;
     ResultData.response := concat (List.map chunk_text (text_chunks evs));
     ResultData.sources :=
       from_last "sources" (fun e => event_data e (PList [])) (PList []) evs;
     ResultData.conversation_history :=
       from_last "stream_end" event_history (PList []) evs |}.

Definition empty_result : ResultData.t :=
  {| ResultData.conversation_id := PStr [];
     ResultData.run_id := PStr [];
     ResultData.response := [];
     ResultData.sources := PList [];
     ResultData.conversation_history := PList [] |}.

Definition tags : list string :=
  ["stream_start"; "sources"; "text_chunk"; "stream_end"]%string.

(** A stream that starts twice. *)
Definition restart_body : str :=
  join [nl] [start_line; chunk_line "a";
             qlit "{'event':'stream_start','conversation_id':'c2'}"].

End StreamSpec.

(** ** The connector: the metadata requests *)

Module WorkflowMetadata.
Record t : Type := mk {
  workflow_id : str;
  name : str;
  description : str;
  version : str;
  author : option str;          (* Optional[str] = None *)
  tags : option (list str)      (* Optional[List[str]] = None *)
}.
End WorkflowMetadata.

(** An optional field: a missing key and [null] both give [None]. *)
Definition validate_optional {A} (f : value -> option A) (d : dict) (k : string)
  : option (option A) :=
  match dict_lookup d (lit k) with
  | None => Some None
  | Some PNone => Some None
  | Some v => Some <$> f v
  end.

(** The constructor call of [WorkflowMetadata] on an unpacked value: only a
    mapping can be unpacked. *)
Definition WorkflowMetadata_init (v : value) : result WorkflowMetadata.t :=
  match v with
  | PDict d =>
      match
        (w ← validate_field validate_str d "workflow_id";
         n ← validate_field validate_str d "name";
         ds ← validate_field validate_str d "description";
         ver ← validate_field validate_str d "version";
         a ← validate_optional validate_str d "author";
         t ← validate_optional (validate_list validate_str) d "tags";
         Some (WorkflowMetadata.mk w n ds ver a t))
      with
      | Some m => Return m
      | None => Raise ValidationError
      end
  | _ => Raise TypeError
  end.

(** The items a [for] loop or a comprehension takes from a decoded value. *)
Definition py_iter (v : value) : result (list value) :=
  match v with
  | PList l => Return l
  | PDict d => Return (List.map (fun kv => PStr (fst kv)) d)
  | PStr s => Return (List.map (fun c => PStr [c]) s)
  | _ => Raise TypeError
  end.

Definition metadata_url (self : LexLLMConnector) (workflow_id : str) : str :=
  base_url self ++ lit "/workflows/" ++ workflow_id ++ lit "/metadata".

Definition list_url (self : LexLLMConnector) : str :=
  base_url self ++ lit "/workflows/metadata".

(** The single [except] clause of the two metadata requests. *)
Definition on_request_error (self : LexLLMConnector) {A} (e : exn)
  : option (result A) :=
  match e with
  | RequestError detail =>
      Some (Raise (ConnectionError (connect_message self detail)))
  | _ => None
  end.

Definition get_workflow_metadata (client : AsyncClient) (self : LexLLMConnector)
    (workflow_id : str) : result WorkflowMetadata.t :=
  try_except
    (let* response := get client (metadata_url self workflow_id) in
     let* _ := raise_for_status response in
     let* data := json_loads (text response) in
     WorkflowMetadata_init data)
    (on_request_error self).

Definition list_workflows (client : AsyncClient) (self : LexLLMConnector)
  : result (list WorkflowMetadata.t) :=
  try_except
    (let* response := get client (list_url self) in
     let* _ := raise_for_status response in
     let* workflows_data := json_loads (text response) in
     let* items := py_iter workflows_data in
     mapM_result WorkflowMetadata_init items)
    (on_request_error self).

(** [Source.model_dump()] *)
Definition model_dump (s : Source.t) : dict :=
  [(lit "id", match Source.id s with inl z => PInt z | inr t => PStr t end);
   (lit "title", PStr (Source.title s));
   (lit "url", PStr (Source.url s))].

(** A metadata record as the service sends it. *)
Definition metadata_json (id : string) : str :=
  qlit "{'workflow_id':'" ++ lit id
    ++ qlit "','name':'n','description':'d','version':'1','tags':['rag'],'extra':0}".

Definition metadata_record (id : string) : WorkflowMetadata.t :=
  WorkflowMetadata.mk (lit id) (lit "n") (lit "d") (lit "1") None
    (Some [lit "rag"]).

(** ** Aggregation: [compare_workflows] of [metrics.py] *)

(** The dictionary [compare_workflows] returns for a non-empty list. *)
Module Comparison.
Record retrieval_t : Type := mk_retrieval {
  avg_sources : Q;
  avg_diversity : Q
}.
Record answer_t : Type := mk_answer {
  avg_length : Q;
  avg_citations : Q;
  avg_overlap : Q
}.
Record faithfulness_t : Type := mk_faithfulness {
  pct_with_citations : Q;
  avg_claims : Q
}.
Record t : Type := mk {
  workflows : list str;
  retrieval : retrieval_t;
  answer : answer_t;
  faithfulness : faithfulness_t
}.
End Comparison.

(** [sum(...)] of floats, from 0, left to right. *)
Definition sum_Q (l : list Q) : Q := fold_left Qplus l 0%Q.

(** [a / n] for a float [a] and an integer [n]. *)
Definition float_div (a : Q) (n : Z) : result Q :=
  if n =? 0 then Raise ZeroDivisionError
  else Return (Qred (a / inject_Z n)).

(** A boolean counted as an integer. *)
Definition bool_Z (b : bool) : Z := if b then 1 else 0.

(** [compare_workflows(results)]; [None] is the empty dictionary. *)
Definition compare_workflows (results : list EvaluationResult)
  : result (option Comparison.t) :=
  match results with
  | [] => Return None
  | _ :: _ =>
      let n := len_Z results in
      let* avg_sources :=
        true_div (sum_Z (List.map (fun r => num_sources (retrieval r)) results)) n in
      let* avg_diversity :=
        float_div (sum_Q (List.map (fun r => source_diversity (retrieval r)) results)) n in
      let* avg_length :=
        true_div (sum_Z (List.map (fun r => answer_length (answer r)) results)) n in
      let* avg_citations :=
        true_div (sum_Z (List.map (fun r => citation_count (answer r)) results)) n in
      let* avg_overlap :=
        float_div (sum_Q (List.map (fun r => answer_source_overlap (answer r)) results)) n in
      let* fraction :=
        true_div
          (sum_Z (List.map (fun r => bool_Z (has_citations (faithfulness r))) results))
          n in
      let* avg_claims :=
        true_div (sum_Z (List.map (fun r => claims_count (faithfulness r)) results)) n in
      Return (Some
        {| Comparison.workflows := List.map workflow_id results;
           Comparison.retrieval :=
             {| Comparison.avg_sources := avg_sources;
                Comparison.avg_diversity := avg_diversity |};
           Comparison.answer :=
             {| Comparison.avg_length := avg_length;
                Comparison.avg_citations := avg_citations;
                Comparison.avg_overlap := avg_overlap |};
           Comparison.faithfulness :=
             {| Comparison.pct_with_citations := Qred (fraction * 100);
                Comparison.avg_claims := avg_claims |} |})
  end.

(** ** The comparison script: [compare_workflows_on_query] *)

(** The classes that [except Exception] does not catch. *)
Definition base_only : list str :=
  [lit "KeyboardInterrupt"; lit "SystemExit"; lit "GeneratorExit";
   lit "CancelledError"].

Definition is_Exception (e : exn) : bool :=
  match e with
  | OtherError name => negb (existsb (Str.eqb name) base_only)
  | _ => true
  end.

(** Whether the run of one workflow of the script returns. *)
Definition workflow_runs (client : AsyncClient) (connector : LexLLMConnector)
    (query workflow_id : str) : bool :=
  is_return (run_workflow client connector workflow_id query
               (lit "compare-" ++ workflow_id) None).

Module CompareScript.
Section Script.

Variable lower : str -> str.
Variable isalnum : char -> bool.

(** The body of the [try] block for one workflow (lines 35-49). *)
Definition evaluate_workflow (client : AsyncClient) (connector : LexLLMConnector)
    (query workflow_id : str) : result EvaluationResult :=
  let* workflow_result :=
    run_workflow client connector workflow_id query
      (lit "compare-" ++ workflow_id) None in
  MetricsCalculator.evaluate_response lower isalnum query workflow_id
    (WorkflowResult.response workflow_result)
    (List.map model_dump (WorkflowResult.sources workflow_result)).

(** One iteration of the loop over [workflow_ids] (lines 30-55). *)
Definition try_workflow (client : AsyncClient) (connector : LexLLMConnector)
    (query : str) (results : list EvaluationResult) (workflow_id : str)
  : result (list EvaluationResult) :=
  try_except
    (let* eval_result := evaluate_workflow client connector query workflow_id in
     Return (results ++ [eval_result]))
    (fun e => if is_Exception e then Some (Return results) else None).

(** What is printed is left out; the comparison and the ranking are
    computed when more than one result came back (lines 58-99). *)
Definition compare_workflows_on_query (client : AsyncClient)
    (connector : LexLLMConnector) (query : str) (workflow_ids : list str)
  : result (list EvaluationResult) :=
  let* results := foldM (try_workflow client connector query) [] workflow_ids in
  let* _ :=
    if 1 <? len_Z results then
      let* comparison := compare_workflows results in
      let ranked := ranked results in
      Return tt
    else Return tt in
  Return results.

End Script.
End CompareScript.

(** A service that knows the workflow "hyde" and answers 404 for any
    other. *)
Definition only_hyde : AsyncClient :=
  {| post := fun url _ =>
       if Str.eqb url (run_url localhost (lit "hyde"))
       then Return (mk_response 200 Stream.sample_body)
       else Return (mk_response 404 (lit "unknown workflow"));
     get := fun _ => Return (mk_response 200 []) |}.

(** A result that cites, or does not. *)
Definition cited (workflow : string) (cites : bool) : EvaluationResult :=
  {| query := lit "Hvad er Aasiaat?";
     workflow_id := lit workflow;
     retrieval := {| num_sources := 1; avg_source_length := 3;
                     source_diversity := 1 |};
     answer := {| answer_length := 10; citation_count := bool_Z cites;
                  answer_source_overlap := 0 |};
     faithfulness := {| has_citations := cites; claims_count := 1 |};
     response := [];
     sources := [] |}.

(** ** Tokens and sentences, computed directly *)

Module ReSpec.
Section Spec.

Variable isalnum : char -> bool.

(** The maximal runs of word characters of a text; [inword] tells that the
    position is inside a run already counted. *)
Fixpoint word_runs (inword : bool) (s : str) : list str :=
  match s with
  | [] => []
  | c :: t =>
      if Re.is_word isalnum c then
        if inword then word_runs true t
        else (c :: Re.take_word isalnum t) :: word_runs true t
      else word_runs false t
  end.

(** The longest prefix of characters of a class, and what follows it. *)
Fixpoint take_in (cs : Re.cset) (s : str) : str :=
  match s with
  | c :: t => if Re.in_cset isalnum cs c then c :: take_in cs t else []
  | [] => []
  end.

Fixpoint drop_in (cs : Re.cset) (s : str) : str :=
  match s with
  | c :: t => if Re.in_cset isalnum cs c then drop_in cs t else s
  | [] => []
  end.

(** The pieces of a text between the runs of characters of a class;
    [inrun] tells that the position is inside a run, [cur] is the piece under
    construction, reversed. *)
Fixpoint pieces (cs : Re.cset) (inrun : bool) (cur : str) (s : str)
  : list str :=
  match s with
  | [] => [rev cur]
  | c :: t =>
      if Re.in_cset isalnum cs c then
        if inrun then pieces cs true cur t
        else rev cur :: pieces cs true [] t
      else pieces cs false (c :: cur) t
  end.

(** The continuation of the verb alternative of [claim_patterns]: the
    closing boundary. *)
Definition closing : Re.cont :=
  Re.rmatch isalnum Re.RBoundary (fun _ rest => Some rest).

End Spec.

(** The nine verb forms of [claim_patterns], in the order of the
    pattern. *)
Definition verbs : list str :=
  List.map lit
    ["er"; "var"; "har"; "havde"; "blev"; "bliver"; "kan"; "skal"; "vil"]%string.

Definition is_verb (t : str) : bool := existsb (Str.eqb t) verbs.

(** The characters that end a sentence. *)
Definition terminators : Re.cset := Re.COneOf (lit ".!?").

Definition is_terminator (c : char) : bool := existsb (N.eqb c) (lit ".!?").

(** Three sentences: the verb of the first is a word of its own, the
    letters "var" of the second are inside a longer word, the third has a
    modal. *)
Definition verbs_response : str :=
  lit "Sne ER hvid [kilde]. Svaret varierer! Det KAN regne".

End ReSpec.

(** * Properties *)

(** ** Splitting, joining and stripping *)

Module LinesFacts.
Import Lines.

Lemma split_nl_not_nil s : split_nl s <> [].
Proof.
  destruct s as [|c t]; simpl; [discriminate|].
  destruct (c =? nl)%N; [discriminate|].
  destruct (split_nl t); discriminate.
Qed.

Lemma has_nl_cons c l : has_nl (c :: l) = (c =? nl)%N || has_nl l.
Proof. unfold has_nl. cbn [existsb]. rewrite (N.eqb_sym nl c). reflexivity. Qed.

Lemma split_nl_no_nl s : Forall (fun l => has_nl l = false) (split_nl s).
Proof.
  induction s as [|c t IH]; cbn [split_nl].
  - repeat constructor.
  - destruct (c =? nl)%N eqn:E.
    + constructor; [reflexivity | exact IH].
    + destruct (split_nl t) as [|l ls].
      * repeat constructor. rewrite has_nl_cons, E. reflexivity.
      * inversion IH; subst. constructor; [|assumption].
        rewrite has_nl_cons, E. assumption.
Qed.

Lemma join_split s : join [nl] (split_nl s) = s.
Proof.
  induction s as [|c t IH]; simpl; [reflexivity|].
  destruct (c =? nl)%N eqn:E.
  - apply N.eqb_eq in E. subst c.
    pose proof (split_nl_not_nil t) as Hn.
    destruct (split_nl t) as [|l ls]; [congruence|].
    simpl in *. rewrite IH. reflexivity.
  - pose proof (split_nl_not_nil t) as Hn.
    destruct (split_nl t) as [|l ls]; [congruence|].
    destruct ls; simpl in *; rewrite <- IH; reflexivity.
Qed.

Lemma split_nl_line p rest :
  has_nl p = false -> split_nl (p ++ nl :: rest) = p :: split_nl rest.
Proof.
  induction p as [|c p IH]; intros H.
  - cbn [app split_nl]. rewrite N.eqb_refl. reflexivity.
  - rewrite has_nl_cons in H. apply orb_false_elim in H as [Hc Hp].
    cbn [app split_nl]. rewrite Hc, (IH Hp). reflexivity.
Qed.

Lemma split_nl_single p : has_nl p = false -> split_nl p = [p].
Proof.
  induction p as [|c p IH]; intros H; [reflexivity|].
  rewrite has_nl_cons in H. apply orb_false_elim in H as [Hc Hp].
  cbn [split_nl]. rewrite Hc, (IH Hp). reflexivity.
Qed.

Lemma split_join ls :
  Forall (fun l => has_nl l = false) ls -> ls <> [] ->
  split_nl (join [nl] ls) = ls.
Proof.
  induction 1 as [|l ls Hl Hls IH]; intros Hne; [congruence|].
  destruct ls as [|l' ls'].
  - simpl. apply split_nl_single, Hl.
  - change (join [nl] (l :: l' :: ls')) with (l ++ nl :: join [nl] (l' :: ls')).
    rewrite split_nl_line by assumption.
    rewrite IH by discriminate. reflexivity.
Qed.

Lemma nonblank_split_join ls :
  Forall (fun l => has_nl l = false) ls ->
  nonblank (split_nl (join [nl] ls)) = nonblank ls.
Proof.
  intros H. destruct ls as [|l ls]; [reflexivity|].
  rewrite split_join; [reflexivity | assumption | discriminate].
Qed.

Lemma nonblank_idem ls : nonblank (nonblank ls) = nonblank ls.
Proof.
  unfold nonblank. induction ls as [|l ls IH]; simpl; [reflexivity|].
  destruct (nonempty l) eqn:E; simpl; rewrite ?E, IH; reflexivity.
Qed.

Lemma nonblank_no_nl ls :
  Forall (fun l => has_nl l = false) ls ->
  Forall (fun l => has_nl l = false) (nonblank ls).
Proof.
  unfold nonblank. induction 1; simpl; [constructor|].
  destruct (nonempty x); [constructor|]; assumption.
Qed.

Lemma isspace_not_nl c : isspace c = false -> (c =? nl)%N = false.
Proof.
  intros H. destruct (c =? nl)%N eqn:E; [|reflexivity].
  apply N.eqb_eq in E. subst c. discriminate H.
Qed.

Lemma lstrip_lines_split s :
  nonblank (split_nl (lstrip s)) = lstrip_lines (nonblank (split_nl s)).
Proof.
  induction s as [|c t IH]; [reflexivity|].
  cbn [lstrip]. destruct (isspace c) eqn:Hsp.
  - rewrite IH. cbn [split_nl]. destruct (c =? nl)%N eqn:Hnl.
    + reflexivity.
    + pose proof (split_nl_not_nil t) as Hn.
      destruct (split_nl t) as [|l ls]; [congruence|].
      unfold nonblank. cbn [List.filter nonempty lstrip_lines].
      unfold all_space. cbn [forallb lstrip]. rewrite Hsp. cbn [andb].
      destruct l as [|d l]; reflexivity.
  - cbn [split_nl]. rewrite (isspace_not_nl _ Hsp).
    pose proof (split_nl_not_nil t) as Hn.
    destruct (split_nl t) as [|l ls]; [congruence|].
    unfold nonblank. cbn [List.filter nonempty lstrip_lines].
    unfold all_space. cbn [forallb lstrip]. rewrite Hsp. reflexivity.
Qed.

Lemma has_nl_rev l : has_nl (rev l) = has_nl l.
Proof.
  unfold has_nl. induction l as [|c l IH]; [reflexivity|].
  cbn [rev existsb]. rewrite existsb_app, IH. cbn [existsb].
  rewrite orb_false_r. apply orb_comm.
Qed.

Lemma join_cons2 sep l l' ls :
  join sep (l :: l' :: ls) = l ++ sep ++ join sep (l' :: ls).
Proof. reflexivity. Qed.

Lemma join_snoc sep ms x :
  ms <> [] -> join sep (ms ++ [x]) = join sep ms ++ sep ++ x.
Proof.
  induction ms as [|m ms IH]; intros Hne; [congruence|].
  destruct ms as [|m' ms'].
  - reflexivity.
  - change (join sep ((m :: m' :: ms') ++ [x]))
      with (m ++ sep ++ join sep ((m' :: ms') ++ [x])).
    rewrite IH by discriminate.
    change (join sep (m :: m' :: ms')) with (m ++ sep ++ join sep (m' :: ms')).
    rewrite <- !app_assoc. reflexivity.
Qed.

Lemma mirror_cons l ls : mirror (l :: ls) = mirror ls ++ [rev l].
Proof. reflexivity. Qed.

Lemma mirror_not_nil ls : ls <> [] -> mirror ls <> [].
Proof.
  destruct ls; [congruence|]. intros _. rewrite mirror_cons.
  intros H. apply app_eq_nil in H as [_ H]. discriminate.
Qed.

Lemma mirror_involutive ls : mirror (mirror ls) = ls.
Proof.
  unfold mirror. rewrite List.map_rev, rev_involutive, List.map_map.
  rewrite <- (List.map_id ls) at 2. apply List.map_ext. apply rev_involutive.
Qed.

Lemma rev_join ls : rev (join [nl] ls) = join [nl] (mirror ls).
Proof.
  induction ls as [|l ls IH]; [reflexivity|].
  destruct ls as [|l' ls'].
  - reflexivity.
  - rewrite join_cons2, !rev_app_distr, IH, (mirror_cons l).
    rewrite join_snoc by (apply mirror_not_nil; discriminate).
    rewrite <- app_assoc. reflexivity.
Qed.

Lemma split_nl_rev s : split_nl (rev s) = mirror (split_nl s).
Proof.
  rewrite <- (join_split s) at 1. rewrite rev_join.
  apply split_join.
  - unfold mirror. apply Forall_rev, Forall_map.
    eapply Forall_impl; [apply split_nl_no_nl|].
    intros l Hl. cbn. rewrite has_nl_rev. exact Hl.
  - apply mirror_not_nil, split_nl_not_nil.
Qed.

Lemma nonempty_rev l : nonempty (rev l) = nonempty l.
Proof.
  destruct l as [|c l]; [reflexivity|]. cbn [rev].
  destruct (rev l); reflexivity.
Qed.

Lemma nonblank_app a b : nonblank (a ++ b) = nonblank a ++ nonblank b.
Proof. apply List.filter_app. Qed.

Lemma nonblank_mirror ls : nonblank (mirror ls) = mirror (nonblank ls).
Proof.
  induction ls as [|l ls IH]; [reflexivity|].
  rewrite mirror_cons, nonblank_app, IH.
  unfold nonblank at 2 3. cbn [List.filter]. rewrite nonempty_rev.
  destruct (nonempty l); [reflexivity|]. apply app_nil_r.
Qed.

Lemma rstrip_lines_split s :
  nonblank (split_nl (rstrip s)) = rstrip_lines (nonblank (split_nl s)).
Proof.
  unfold rstrip, rstrip_lines.
  rewrite split_nl_rev, nonblank_mirror, lstrip_lines_split.
  rewrite split_nl_rev, nonblank_mirror. reflexivity.
Qed.

(** The lines that are decoded, from the lines of the unstripped body. *)
Lemma ndjson_lines_trim body :
  ndjson_lines body = trim_lines (nonblank (split_nl body)).
Proof.
  unfold ndjson_lines, strip, trim_lines.
  rewrite rstrip_lines_split, lstrip_lines_split. reflexivity.
Qed.

Lemma lstrip_tight l : starts_with_space l = false -> lstrip l = l.
Proof. destruct l as [|c l]; [reflexivity|]. cbn. intros ->. reflexivity. Qed.

Lemma all_space_tight l :
  nonempty l = true -> starts_with_space l = false -> all_space l = false.
Proof.
  destruct l as [|c l]; [discriminate|]. cbn. intros _ ->. reflexivity.
Qed.

Lemma lstrip_lines_tight ls :
  Forall (fun l => nonempty l = true /\ starts_with_space l = false) ls ->
  lstrip_lines ls = ls.
Proof.
  intros H. destruct H as [|l ls [Hn Hs] _]; [reflexivity|].
  cbn [lstrip_lines]. rewrite all_space_tight, lstrip_tight by assumption.
  reflexivity.
Qed.

Lemma trim_lines_tight ls :
  Forall (fun l => nonempty l = true /\ tight l = true) ls ->
  trim_lines ls = ls.
Proof.
  intros H. unfold trim_lines, rstrip_lines.
  rewrite (lstrip_lines_tight ls).
  - rewrite lstrip_lines_tight; [apply mirror_involutive|].
    unfold mirror. apply Forall_rev, Forall_map.
    eapply Forall_impl; [exact H|].
    intros l [Hn Ht]. cbn. rewrite nonempty_rev. split; [exact Hn|].
    unfold tight in Ht. apply andb_prop in Ht as [_ Ht].
    apply negb_true_iff in Ht. exact Ht.
  - eapply Forall_impl; [exact H|].
    intros l [Hn Ht]. split; [exact Hn|].
    unfold tight in Ht. apply andb_prop in Ht as [Ht _].
    apply negb_true_iff in Ht. exact Ht.
Qed.

(** A body made of tight lines: exactly its non-empty lines are decoded. *)
Lemma ndjson_lines_join ls :
  Forall (fun l => has_nl l = false /\ tight l = true) ls ->
  ndjson_lines (join [nl] ls) = nonblank ls.
Proof.
  intros H. rewrite ndjson_lines_trim, nonblank_split_join.
  - apply trim_lines_tight. unfold nonblank.
    induction H as [|l ls [_ Ht] _ IH]; cbn [List.filter]; [constructor|].
    destruct (nonempty l) eqn:E; [constructor; [split|]|]; assumption.
  - eapply Forall_impl; [exact H|]. intros l [Hl _]. exact Hl.
Qed.

End LinesFacts.

(** ** The stream decoder *)

Module StreamFacts.
Import Lines LinesFacts Stream.

Lemma foldM_app {A S} (f : S -> A -> result S) (s : S) (a b : list A) :
  foldM f s (a ++ b) = let* s' := foldM f s a in foldM f s' b.
Proof.
  revert s. induction a as [|x a IH]; intros s; [reflexivity|].
  cbn [app foldM]. destruct (f s x); cbn [bind]; [apply IH | reflexivity].
Qed.

(** Dropping elements on which the loop body does nothing. *)
Lemma foldM_filter {A S} (f : S -> A -> result S) (keep : A -> bool) :
  (forall s x, keep x = false -> f s x = Return s) ->
  forall (l : list A) (s : S),
    foldM f s (List.filter keep l) = foldM f s l.
Proof.
  intros Hskip. induction l as [|x l IH]; intros s; [reflexivity|].
  cbn [List.filter]. destruct (keep x) eqn:E.
  - cbn [foldM]. destruct (f s x); cbn [bind]; [apply IH | reflexivity].
  - cbn [foldM]. rewrite (Hskip s x E). cbn [bind]. apply IH.
Qed.

Lemma foldM_raises {A S} (f : S -> A -> result S) (x : A) (l : list A) :
  In x l -> (forall s, is_return (f s x) = false) ->
  forall s, is_return (foldM f s l) = false.
Proof.
  intros Hin Hx. induction l as [|y l IH]; intros s; [destruct Hin|].
  cbn [foldM]. destruct Hin as [-> | Hin].
  - specialize (Hx s). destruct (f s x); [discriminate | reflexivity].
  - destruct (f s y); cbn [bind]; [apply IH, Hin | reflexivity].
Qed.

Lemma loop_body_nonblank (ls : list str) (st : parse_state) :
  foldM loop_body st ls = foldM decode_step st (nonblank ls).
Proof.
  unfold nonblank. symmetry.
  rewrite <- (foldM_filter loop_body nonempty).
  - generalize (List.filter nonempty ls) (List.forallb_filter nonempty ls).
    intros l Hl. revert st.
    induction l as [|x l IH]; intros st; [reflexivity|].
    cbn [forallb] in Hl. apply andb_prop in Hl as [Hx Hl].
    cbn [foldM]. unfold loop_body at 1. rewrite Hx. cbn [negb].
    fold (decode_step st x). destruct (decode_step st x); cbn [bind];
      [apply IH, Hl | reflexivity].
  - intros s x Hx. unfold loop_body. rewrite Hx. reflexivity.
Qed.

(** [_parse_ndjson_stream] is the fold of [decode_step] over the decoded
    lines, followed by the final join. *)
Lemma parse_unfold (body : str) :
  _parse_ndjson_stream body =
  let* st := foldM decode_step initial_state (ndjson_lines body) in finish st.
Proof.
  unfold _parse_ndjson_stream. rewrite loop_body_nonblank. reflexivity.
Qed.

Lemma decode_all_fold (ls : list str) (evs : list value) :
  decode_all ls = Return evs ->
  forall st, foldM decode_step st ls = foldM handle_event st evs.
Proof.
  revert evs. induction ls as [|l ls IH]; intros evs H st.
  - injection H as <-. reflexivity.
  - cbn [decode_all] in H. cbn [foldM]. unfold decode_step at 1.
    destruct (json_loads l) as [e|]; [|discriminate]. cbn [bind] in *.
    destruct (decode_all ls) as [es|]; [|discriminate]. cbn [bind] in H.
    injection H as <-. cbn [foldM].
    destruct (handle_event st e); cbn [bind]; [apply IH; reflexivity | reflexivity].
Qed.

(** Two different literals are not both equal to one value. *)
Lemma eq_str_excl (v : value) (a b : string) :
  lit a <> lit b -> eq_str v a = true -> eq_str v b = false.
Proof.
  intros Hne Ha. destruct v; try discriminate. cbn [eq_str] in *.
  unfold Str.eqb in *. apply bool_decide_eq_true in Ha. subst s.
  apply bool_decide_eq_false. exact Hne.
Qed.

(** What one well-formed event does to the accumulators. *)
Lemma handle_event_ok (st : parse_state) (e : value) :
  event_ok e = true ->
  exists st',
    handle_event st e = Return st'
    /\ response_chunks st' = response_chunks st ++ text_chunks [e]
    /\ st_sources st' =
         (if has_tag "sources" e then event_data e (PList [])
          else st_sources st)
    /\ st_conversation_history st' =
         (if has_tag "stream_end" e then event_history e
          else st_conversation_history st).
Proof.
  unfold event_ok. intros H. apply andb_prop in H as [Hd H].
  destruct e as [| | | | |l|ev]; try discriminate. clear Hd.
  unfold handle_event, text_chunks, has_tag in *. cbn [get_of bind event_tag] in *.
  cbn [List.filter]. unfold has_tag. cbn [event_tag].
  set (tag := dict_get ev (lit "event") PNone) in *.
  destruct (eq_str tag "stream_start") eqn:E1.
  { rewrite (eq_str_excl tag "stream_start" "sources"),
            (eq_str_excl tag "stream_start" "text_chunk"),
            (eq_str_excl tag "stream_start" "stream_end") by (done || discriminate).
    eexists. split; [reflexivity|]. cbn. rewrite app_nil_r. auto. }
  destruct (eq_str tag "sources") eqn:E2.
  { rewrite (eq_str_excl tag "sources" "text_chunk"),
            (eq_str_excl tag "sources" "stream_end") by (done || discriminate).
    eexists. split; [reflexivity|]. cbn. rewrite app_nil_r. auto. }
  destruct (eq_str tag "text_chunk") eqn:E3.
  { rewrite (eq_str_excl tag "text_chunk" "stream_end") by (done || discriminate).
    eexists. split; [reflexivity|]. cbn. auto. }
  destruct (eq_str tag "stream_end") eqn:E4.
  { unfold event_history. cbn [event_data] in *.
    destruct (dict_get ev (lit "data") (PDict [])); try discriminate.
    eexists. split; [reflexivity|]. cbn. rewrite app_nil_r. auto. }
  eexists. split; [reflexivity|]. cbn. rewrite app_nil_r. auto.
Qed.

Lemma text_chunks_cons e evs :
  text_chunks (e :: evs) = text_chunks [e] ++ text_chunks evs.
Proof.
  unfold text_chunks. cbn [List.filter].
  destruct (has_tag "text_chunk" e); reflexivity.
Qed.

Lemma text_chunks_app a b : text_chunks (a ++ b) = text_chunks a ++ text_chunks b.
Proof. unfold text_chunks. rewrite List.filter_app, List.map_app. reflexivity. Qed.

(** The fold over a well-formed stream: it returns, the fragments are
    appended in order, and the two overwritten fields change only at events
    of their kind. *)
Lemma fold_events (evs : list value) :
  Forall (fun e => event_ok e = true) evs ->
  forall st, exists st',
    foldM handle_event st evs = Return st'
    /\ response_chunks st' = response_chunks st ++ text_chunks evs
    /\ (Forall (fun e => has_tag "sources" e = false) evs ->
        st_sources st' = st_sources st)
    /\ (Forall (fun e => has_tag "stream_end" e = false) evs ->
        st_conversation_history st' = st_conversation_history st).
Proof.
  induction 1 as [|e evs He _ IH]; intros st.
  - exists st. cbn. rewrite app_nil_r. auto.
  - destruct (handle_event_ok st e He) as (st1 & H1 & Hc1 & Hs1 & Hh1).
    destruct (IH st1) as (st2 & H2 & Hc2 & Hs2 & Hh2).
    exists st2. cbn [foldM]. rewrite H1. cbn [bind]. split; [exact H2|].
    split; [|split].
    + rewrite Hc2, Hc1, (text_chunks_cons e evs), app_assoc. reflexivity.
    + intros Hno. inversion Hno as [|? ? Hx Hrest]; subst.
      rewrite (Hs2 Hrest), Hs1, Hx. reflexivity.
    + intros Hno. inversion Hno as [|? ? Hx Hrest]; subst.
      rewrite (Hh2 Hrest), Hh1, Hx. reflexivity.
Qed.

Lemma str_items_map (fs : list str) : str_items (List.map PStr fs) = Return fs.
Proof.
  induction fs as [|f fs IH]; [reflexivity|].
  cbn [List.map str_items]. rewrite IH. reflexivity.
Qed.

Lemma join_nil_concat (fs : list str) : join [] fs = concat fs.
Proof.
  induction fs as [|f fs IH]; [reflexivity|].
  destruct fs as [|g fs].
  - cbn. rewrite app_nil_r. reflexivity.
  - rewrite join_cons2, IH. reflexivity.
Qed.

(** Every payload of a "text_chunk" event of a well-formed stream is a
    string. *)
Lemma text_chunks_strings (evs : list value) :
  Forall (fun e => event_ok e = true) evs ->
  exists fs, text_chunks evs = List.map PStr fs.
Proof.
  induction 1 as [|e evs He _ (fs & IH)]; [exists []; reflexivity|].
  rewrite (text_chunks_cons e evs), IH. unfold text_chunks. cbn [List.filter].
  unfold event_ok in He. apply andb_prop in He as [_ He].
  destruct (has_tag "text_chunk" e) eqn:E; [|exists fs; reflexivity].
  unfold has_tag in *.
  rewrite (eq_str_excl _ "text_chunk" "stream_start"),
          (eq_str_excl _ "text_chunk" "sources") in He by (done || discriminate).
  cbn [List.map app]. destruct (event_data e (PStr [])) as [| | | |s| |];
    try discriminate.
  exists (s :: fs). reflexivity.
Qed.

(** The decoder on a body all of whose lines decode to well-formed
    events. *)
Lemma parse_events (body : str) (evs : list value) :
  stream_events body = Return evs ->
  Forall (fun e => event_ok e = true) evs ->
  exists st,
    foldM handle_event initial_state evs = Return st
    /\ _parse_ndjson_stream body = finish st.
Proof.
  intros Hdec Hok.
  destruct (fold_events evs Hok initial_state) as (st & Hst & _).
  exists st. split; [exact Hst|].
  rewrite parse_unfold, (decode_all_fold _ _ Hdec), Hst. reflexivity.
Qed.

Lemma finish_strings (st : parse_state) (fs : list str) :
  response_chunks st = List.map PStr fs ->
  finish st =
  Return {| ResultData.conversation_id := st_conversation_id st;
            ResultData.run_id := st_run_id st;
            ResultData.response := concat fs;
            ResultData.sources := st_sources st;
            ResultData.conversation_history := st_conversation_history st |}.
Proof.
  intros H. unfold finish, str_join. rewrite H, str_items_map. cbn [bind].
  rewrite join_nil_concat. reflexivity.
Qed.

Lemma WorkflowResult_init_response rd wr :
  WorkflowResult_init rd = Return wr ->
  WorkflowResult.response wr = ResultData.response rd.
Proof.
  unfold WorkflowResult_init. intros H.
  destruct (validate_str (ResultData.conversation_id rd)); [|discriminate].
  destruct (validate_str (ResultData.run_id rd)); [|discriminate].
  destruct (validate_list validate_Source (ResultData.sources rd)); [|discriminate].
  destruct (validate_list validate_ConversationMessage
              (ResultData.conversation_history rd)); [|discriminate].
  cbn in H. injection H as <-. reflexivity.
Qed.

(** The result depends on the non-empty lines of the body only. *)
Lemma parse_nonblank_lines (b1 b2 : str) :
  nonblank (split_nl b1) = nonblank (split_nl b2) ->
  _parse_ndjson_stream b1 = _parse_ndjson_stream b2.
Proof.
  intros H. rewrite !parse_unfold, !ndjson_lines_trim, H. reflexivity.
Qed.

Lemma unrecognized_line_skipped (st : parse_state) (l : str) :
  unrecognized_line l = true -> decode_step st l = Return st.
Proof.
  unfold unrecognized_line, decode_step. destruct (json_loads l) as [e|]; [|discriminate].
  intros H. apply andb_prop in H as [Hd Hr]. apply negb_true_iff in Hr.
  destruct e as [| | | | | |ev]; try discriminate.
  unfold recognized, has_tag in Hr. cbn [event_tag] in Hr.
  apply orb_false_elim in Hr as [Hr H4]. apply orb_false_elim in Hr as [Hr H3].
  apply orb_false_elim in Hr as [H1 H2].
  cbn [bind]. unfold handle_event. cbn [get_of bind].
  rewrite H1, H2, H3, H4. reflexivity.
Qed.

Lemma filter_nonblank (p : str -> bool) (ls : list str) :
  nonblank (List.filter p ls) = List.filter p (nonblank ls).
Proof.
  unfold nonblank. induction ls as [|l ls IH]; [reflexivity|].
  cbn [List.filter].
  destruct (p l) eqn:Ep, (nonempty l) eqn:En; cbn [List.filter];
    rewrite ?Ep, ?En, IH; reflexivity.
Qed.

Lemma Forall_filter_keep {A} (P : A -> Prop) (p : A -> bool) (l : list A) :
  Forall P l -> Forall P (List.filter p l).
Proof.
  induction 1 as [|x l Hx _ IH]; cbn [List.filter]; [constructor|].
  destruct (p x); [constructor|]; assumption.
Qed.


Lemma sample_lines_tight :
  Forall (fun l => has_nl l = false /\ tight l = true) sample_lines.
Proof. repeat (constructor; [split; vm_compute; reflexivity|]). constructor. Defined.



(** C3.  For a stream whose "text_chunk" events carry the fragments
    [f1 .. fN], in that order, the response text is [f1 ++ ... ++ fN],
    nothing inserted between fragments, in the decoded dictionary and in
    the [WorkflowResult] built from it. *)
Theorem text_chunks_concatenated (body : str) (evs : list value) (fs : list str) :
  stream_events body = Return evs ->
  Forall (fun e => event_ok e = true) evs ->
  text_chunks evs = List.map PStr fs ->
  exists rd,
    _parse_ndjson_stream body = Return rd
    /\ ResultData.response rd = concat fs
    /\ (forall wr, WorkflowResult_init rd = Return wr ->
                   WorkflowResult.response wr = concat fs).
Proof.
  intros Hdec Hok Hfs.
  destruct (fold_events evs Hok initial_state) as (st & Hst & Hc & _).
  cbn [initial_state response_chunks app] in Hc. rewrite Hfs in Hc.
  eexists. split; [|split].
  - rewrite parse_unfold, (decode_all_fold _ _ Hdec), Hst. cbn [bind].
    apply finish_strings, Hc.
  - reflexivity.
  - intros wr Hwr. apply WorkflowResult_init_response in Hwr. exact Hwr.
Qed.

Lemma sample_events_ok :
  Forall (fun e => event_ok e = true) (events_of sample_body).
Proof. vm_compute. repeat constructor. Defined.

Lemma text_chunks_concatenated_witness :
  exists rd,
    _parse_ndjson_stream sample_body = Return rd
    /\ ResultData.response rd = concat [lit "Sne "; lit "er "; lit "hvid."]
    /\ (forall wr, WorkflowResult_init rd = Return wr ->
                   WorkflowResult.response wr
                   = concat [lit "Sne "; lit "er "; lit "hvid."]).
Proof.
  apply (text_chunks_concatenated sample_body (events_of sample_body)).
  - vm_compute. reflexivity.
  - exact sample_events_ok.
  - vm_compute. reflexivity.
Defined.

(** C4.  The source list is the [data] payload of the last "sources" event,
    and the conversation history is the one carried by the [data] payload
    of the last "stream_end" event: nothing of an earlier event of the same
    kind remains. *)
Theorem last_event_wins (body : str) (evs pre post : list value) (e : value) :
  stream_events body = Return evs ->
  Forall (fun x => event_ok x = true) evs ->
  evs = pre ++ e :: post ->
  (has_tag "sources" e = true ->
   Forall (fun x => has_tag "sources" x = false) post ->
   exists rd,
     _parse_ndjson_stream body = Return rd
     /\ ResultData.sources rd = event_data e (PList []))
  /\ (has_tag "stream_end" e = true ->
      Forall (fun x => has_tag "stream_end" x = false) post ->
      exists rd,
        _parse_ndjson_stream body = Return rd
        /\ ResultData.conversation_history rd = event_history e).
Proof.
  intros Hdec Hok ->.
  destruct (text_chunks_strings _ Hok) as (fs & Hfs).
  destruct (fold_events _ Hok initial_state) as (st & Hst & Hc & _).
  cbn [initial_state response_chunks app] in Hc. rewrite Hfs in Hc.
  assert (Hparse : _parse_ndjson_stream body = finish st).
  { rewrite parse_unfold, (decode_all_fold _ _ Hdec), Hst. reflexivity. }
  rewrite (finish_strings st fs Hc) in Hparse.
  apply Forall_app in Hok as [Hpre Hrest].
  inversion Hrest as [|? ? He Hpost]; subst.
  rewrite foldM_app in Hst.
  destruct (fold_events pre Hpre initial_state) as (st1 & Hst1 & _).
  rewrite Hst1 in Hst. cbn [bind foldM] in Hst.
  destruct (handle_event_ok st1 e He) as (st2 & Hst2 & _ & Hs2 & Hh2).
  rewrite Hst2 in Hst. cbn [bind] in Hst.
  destruct (fold_events post Hpost st2) as (st3 & Hst3 & _ & Hs3 & Hh3).
  rewrite Hst3 in Hst. injection Hst as <-.
  split; intros Htag Hlast; eexists; (split; [exact Hparse|]); cbn.
  - rewrite (Hs3 Hlast), Hs2, Htag. reflexivity.
  - rewrite (Hh3 Hlast), Hh2, Htag. reflexivity.
Qed.

Lemma last_event_wins_witness :
  (exists rd,
     _parse_ndjson_stream sample_body = Return rd
     /\ ResultData.sources rd =
        PList [PDict [(lit "id", PInt 1); (lit "title", PStr (lit "new"));
                      (lit "url", PStr (lit "u"))]])
  /\ (exists rd,
        _parse_ndjson_stream sample_body = Return rd
        /\ ResultData.conversation_history rd =
           PList [PDict [(lit "role", PStr (lit "user"));
                         (lit "content", PStr (lit "second"))]]).
Proof.
  split.
  - refine (proj1 (last_event_wins sample_body (events_of sample_body)
                     (firstn 5 (events_of sample_body))
                     (skipn 6 (events_of sample_body))
                     (nth 5 (events_of sample_body) PNone) _ _ _) _ _).
    + vm_compute. reflexivity.
    + exact sample_events_ok.
    + vm_compute. reflexivity.
    + vm_compute. reflexivity.
    + vm_compute. repeat constructor.
  - refine (proj2 (last_event_wins sample_body (events_of sample_body)
                     (firstn 8 (events_of sample_body))
                     []
                     (nth 8 (events_of sample_body) PNone) _ _ _) _ _).
    + vm_compute. reflexivity.
    + exact sample_events_ok.
    + vm_compute. reflexivity.
    + vm_compute. reflexivity.
    + constructor.
Defined.



(** A line holding only white space is not an empty line: it is handed to
    the decoder, which rejects it. *)
Example whitespace_line_is_decoded :
  _parse_ndjson_stream (join [nl] [chunk_line "a"; lit " "; chunk_line "b"])
  = Raise JSONDecodeError.
Proof. vm_compute. reflexivity. Qed.

(** White space that [json.loads] does not accept is accepted at the very
    start of the body, which [strip] removes, and nowhere else. *)
Example form_feed_line :
  _parse_ndjson_stream (join [nl] [step_line; 12%N :: chunk_line "a"])
  = Raise JSONDecodeError
  /\ is_return (_parse_ndjson_stream (join [nl] [12%N :: chunk_line "a"])) = true.
Proof. split; vm_compute; reflexivity. Qed.

End StreamFacts.

(** ** The connector: outcomes of [run_workflow] and [health_check] *)

Module ConnectorFacts.
Import Lines LinesFacts Stream StreamFacts.

Lemma json_loads_raise (l : str) (e : exn) :
  json_loads l = Raise e -> e = JSONDecodeError.
Proof. unfold json_loads. destruct (Json.decode l); congruence. Qed.

Lemma get_of_raise (v : value) (e : exn) :
  get_of v = Raise e -> e = AttributeError.
Proof. destruct v; cbn; congruence. Qed.

Lemma handle_event_raise (st : parse_state) (ev : value) (e : exn) :
  handle_event st ev = Raise e -> e = AttributeError.
Proof.
  unfold handle_event. destruct (get_of ev) as [d|e'] eqn:E; cbn [bind].
  - repeat (match goal with |- context [if ?c then _ else _] => destruct c end);
      try discriminate.
    destruct (get_of (dict_get d (lit "data") (PDict []))) eqn:E2; cbn [bind];
      [discriminate|].
    intros [= <-]. eapply get_of_raise, E2.
  - intros [= <-]. eapply get_of_raise, E.
Qed.

Lemma loop_body_raise (st : parse_state) (l : str) (e : exn) :
  loop_body st l = Raise e -> decode_error e = true.
Proof.
  unfold loop_body. destruct (negb (nonempty l)); [discriminate|].
  destruct (json_loads l) as [ev|e'] eqn:E; cbn [bind].
  - intros H. apply handle_event_raise in H. subst. reflexivity.
  - intros [= <-]. apply json_loads_raise in E. subst. reflexivity.
Qed.

Lemma foldM_raise_kind {A S} (f : S -> A -> result S) (P : exn -> Prop) :
  (forall s x e, f s x = Raise e -> P e) ->
  forall l s e, foldM f s l = Raise e -> P e.
Proof.
  intros Hf. induction l as [|x l IH]; intros s e; cbn [foldM]; [discriminate|].
  destruct (f s x) as [s'|e'] eqn:E; cbn [bind].
  - apply IH.
  - intros [= <-]. eapply Hf, E.
Qed.

Lemma str_items_raise (items : list value) (e : exn) :
  str_items items = Raise e -> e = TypeError.
Proof.
  induction items as [|v items IH]; cbn [str_items]; [discriminate|].
  destruct v; try congruence.
  destruct (str_items items); cbn [bind]; [discriminate|].
  intros [= <-]. apply IH. reflexivity.
Qed.

(** The decoder raises nothing but decoding errors. *)
Lemma parse_raise (body : str) (e : exn) :
  _parse_ndjson_stream body = Raise e -> decode_error e = true.
Proof.
  unfold _parse_ndjson_stream.
  destruct (foldM loop_body initial_state (split_nl (strip body))) as [st|e'] eqn:E;
    cbn [bind].
  - unfold str_join. destruct (str_items (response_chunks st)) eqn:E2; cbn [bind];
      [discriminate|].
    intros [= <-]. apply str_items_raise in E2. subst. reflexivity.
  - intros [= <-].
    eapply (foldM_raise_kind loop_body (fun e => decode_error e = true)), E.
    apply loop_body_raise.
Qed.

Lemma WorkflowResult_init_raise (rd : ResultData.t) (e : exn) :
  WorkflowResult_init rd = Raise e -> e = ValidationError.
Proof.
  unfold WorkflowResult_init.
  match goal with |- context [match ?o with Some _ => _ | None => _ end] =>
    destruct o end; congruence.
Qed.

Lemma decode_response_raise (resp : Response) (e : exn) :
  decode_response resp = Raise e -> decode_error e = true.
Proof.
  unfold decode_response.
  destruct (_parse_ndjson_stream (text resp)) as [rd|e'] eqn:E; cbn [bind].
  - intros H. apply WorkflowResult_init_raise in H. subst. reflexivity.
  - intros [= <-]. eapply parse_raise, E.
Qed.

Ltac outcome_cases :=
  repeat match goal with
         | H : exists _, _ |- _ => destruct H
         | H : _ /\ _ |- _ => destruct H
         | H : Return _ = Return _ |- _ => injection H as <-
         | H : Raise _ = Raise _ |- _ => injection H as <-
         end.

(** [run_workflow], case by case on what the POST yields. *)
Lemma run_workflow_cases client self workflow_id user_input conversation_id
    conversation_history :
  run_workflow client self workflow_id user_input conversation_id
    conversation_history =
  match post client (run_url self workflow_id)
          (run_payload user_input conversation_id conversation_history) with
  | Raise (RequestError detail) =>
      Raise (ConnectionError (connect_message self detail))
  | Raise (HTTPStatusError _ body) => Raise (RuntimeError (failed_message body))
  | Raise e => Raise e
  | Return resp =>
      if is_success resp then decode_response resp
      else Raise (RuntimeError (failed_message (text resp)))
  end.
Proof.
  unfold run_workflow.
  destruct (post client _ _) as [resp|e]; cbn [bind try_except].
  - unfold raise_for_status. destruct (is_success resp); cbn [bind try_except].
    + fold (decode_response resp).
      destruct (decode_response resp) as [wr|e] eqn:E; [reflexivity|].
      apply decode_response_raise in E. destruct e; try discriminate; reflexivity.
    + reflexivity.
  - destruct e; reflexivity.
Qed.




(** Validation fails in the same way: a "sources" payload that is not a
    list is decoded, and rejected by the model. *)
Example invalid_sources_raises :
  run_workflow (replying 200 (qlit "{'event':'sources','data':'none'}")) localhost
    (lit "beta_workflow_v2_hyde") (lit "Hvad er sne?") (lit "eval-123") None
  = Raise ValidationError.
Proof. vm_compute. reflexivity. Qed.

Example sample_run :
  run_workflow (replying 200 sample_body) localhost
    (lit "beta_workflow_v2_hyde") (lit "Hvad er sne?") (lit "eval-123") None
  = Return {| WorkflowResult.conversation_id := lit "c1";
              WorkflowResult.run_id := lit "r1";
              WorkflowResult.response := lit "Sne er hvid.";
              WorkflowResult.sources :=
                [Source.mk (inl 1) (lit "new") (lit "u")];
              WorkflowResult.conversation_history :=
                [ConversationMessage.mk (lit "user") (lit "second")] |}.
Proof. vm_compute. reflexivity. Qed.

(** C6.  [health_check] never raises: whatever the GET on [/health] does,
    it returns a boolean, which is [true] exactly when the GET returned a
    response with status 200. *)
Theorem health_check_total (client : AsyncClient) (self : LexLLMConnector) :
  exists b : bool,
    health_check client self = Return b
    /\ (b = true <->
        exists resp, get client (base_url self ++ lit "/health") = Return resp
                     /\ status_code resp = 200).
Proof.
  unfold health_check, health_url.
  destruct (get client (base_url self ++ lit "/health")) as [resp|e];
    cbn [bind try_except].
  - exists (status_code resp =? 200). split; [reflexivity|]. split.
    + intros H. exists resp. split; [reflexivity|]. apply Z.eqb_eq, H.
    + intros (resp' & [= <-] & H). apply Z.eqb_eq, H.
  - exists false. split; [reflexivity|]. split; [discriminate|].
    intros (resp & H & _). discriminate.
Qed.

Example health_check_samples :
  health_check (replying 200 []) localhost = Return true
  /\ health_check (replying 204 []) localhost = Return false
  /\ health_check (replying 500 (lit "down")) localhost = Return false
  /\ health_check (failing (RequestError (lit "timed out"))) localhost
     = Return false
  /\ health_check (failing (OtherError (lit "CancelledError"))) localhost
     = Return false.
Proof. repeat split; reflexivity. Qed.

End ConnectorFacts.

(** ** Regular expressions *)

Module ReFacts.
Import Re.
Section Facts.

Variable isalnum : char -> bool.

Local Abbreviation match_here := (Re.match_here isalnum) (only parsing).
Local Abbreviation search_from := (Re.search_from isalnum) (only parsing).
Local Abbreviation findall_from := (Re.findall_from isalnum) (only parsing).

Lemma found_is_Some (o : option str) : is_Some o <-> found o = true.
Proof.
  destruct o; cbn; split; intros H; eauto; try discriminate.
  destruct H as [? [=]].
Qed.

Lemma match_here_alt (a b : regex) prev s :
  found (match_here (RAlt a b) prev s) =
  found (match_here a prev s) || found (match_here b prev s).
Proof.
  unfold Re.match_here. cbn [rmatch].
  destruct (rmatch isalnum a _ prev s); reflexivity.
Qed.

Lemma found_search_alt (a b : regex) s prev :
  found (search_from (RAlt a b) prev s) =
  found (search_from a prev s) || found (search_from b prev s).
Proof.
  revert prev. induction s as [|c t IH]; intros prev; cbn [Re.search_from];
    pose proof (match_here_alt a b prev) as H.
  - specialize (H []).
    destruct (match_here (RAlt a b) prev []), (match_here a prev []),
      (match_here b prev []); cbn in *; congruence.
  - specialize (H (c :: t)). specialize (IH (Some c)).
    destruct (match_here (RAlt a b) prev (c :: t)),
      (match_here a prev (c :: t)), (match_here b prev (c :: t));
      cbn [found orb] in *; try congruence.
    + rewrite orb_true_r. reflexivity.
Qed.

(** An alternation is found exactly when one of its branches is. *)
Lemma search_alt (a b : regex) s :
  is_Some (search isalnum (RAlt a b) s) <->
  is_Some (search isalnum a s) \/ is_Some (search isalnum b s).
Proof.
  unfold search. rewrite !found_is_Some, found_search_alt.
  apply orb_true_iff.
Qed.

(** [findall] finds something exactly when [search] does. *)
Lemma findall_search (r : regex) s prev :
  findall_from r 0 prev s <> [] <-> is_Some (search_from r prev s).
Proof.
  revert prev. induction s as [|c t IH]; intros prev;
    cbn [Re.findall_from Re.search_from].
  - destruct (match_here r prev []).
    + split; [eauto | discriminate].
    + split; [congruence | intros [? [=]]].
  - destruct (match_here r prev (c :: t)).
    + split; [eauto | discriminate].
    + apply IH.
Qed.

Lemma findall_count (r : regex) (s : str) :
  1 <= len_Z (findall isalnum r s) <-> is_Some (search isalnum r s).
Proof.
  unfold findall, search. rewrite <- findall_search. unfold len_Z.
  destruct (findall_from r 0 None s); cbn [length]; split; intros; try lia;
    congruence.
Qed.

(** *** The word pattern *)

Local Abbreviation is_word := (Re.is_word isalnum) (only parsing).
Local Abbreviation take_word := (Re.take_word isalnum) (only parsing).
Local Abbreviation drop_word := (Re.drop_word isalnum) (only parsing).

Lemma take_drop_word s : take_word s ++ drop_word s = s.
Proof.
  induction s as [|c t IH]; [reflexivity|]. cbn.
  destruct (is_word c); [cbn; rewrite IH|]; reflexivity.
Qed.

Lemma greedy_star_word prev s :
  greedy_star isalnum CWord (fun _ rest => Some rest) prev s = Some (drop_word s).
Proof.
  revert prev. induction s as [|c t IH]; intros prev; [reflexivity|].
  cbn [greedy_star in_cset drop_word].
  destruct (is_word c); [rewrite IH|]; reflexivity.
Qed.

Lemma match_here_word prev c t :
  match_here word_pattern prev (c :: t) =
  if is_word c then Some (drop_word t) else None.
Proof.
  unfold Re.match_here, word_pattern. cbn [rmatch in_cset].
  destruct (is_word c); [apply greedy_star_word | reflexivity].
Qed.

Lemma matched_word c t : matched (c :: t) (drop_word t) = c :: take_word t.
Proof.
  unfold matched. rewrite <- (take_drop_word t) at 1 3.
  cbn [length]. rewrite length_app.
  replace (S (length (take_word t) + length (drop_word t)) - length (drop_word t))%nat
    with (S (length (take_word t))) by lia.
  cbn [take]. rewrite take_app_length. reflexivity.
Qed.

(** One step of [findall] for the word pattern. *)
Lemma findall_word_cons prev c t :
  findall_from word_pattern 0 prev (c :: t) =
  if is_word c
  then (c :: take_word t)
         :: findall_from word_pattern (length (take_word t)) (Some c) t
  else findall_from word_pattern 0 (Some c) t.
Proof.
  cbn [Re.findall_from]. rewrite match_here_word.
  destruct (is_word c); [|reflexivity].
  rewrite matched_word. cbn [length].
  replace (S (length (take_word t)) - 1)%nat with (length (take_word t)) by lia.
  reflexivity.
Qed.

Lemma findall_word_nil prev : findall_from word_pattern 0 prev [] = [].
Proof. reflexivity. Qed.

(** The character before the position plays no part for this pattern. *)
Lemma findall_word_prev s : forall skip p1 p2,
  findall_from word_pattern skip p1 s = findall_from word_pattern skip p2 s.
Proof.
  induction s as [|c t IH]; intros skip p1 p2.
  - destruct skip; reflexivity.
  - destruct skip as [|n].
    + rewrite !findall_word_cons. reflexivity.
    + cbn [Re.findall_from]. reflexivity.
Qed.

Lemma take_word_app a sp b :
  is_word sp = false -> take_word (a ++ sp :: b) = take_word a.
Proof.
  intros Hsp. induction a as [|c a IH]; cbn; [rewrite Hsp; reflexivity|].
  destruct (is_word c); [rewrite IH|]; reflexivity.
Qed.

Lemma length_take_word a : (length (take_word a) <= length a)%nat.
Proof.
  induction a as [|c a IH]; cbn; [lia|].
  destruct (is_word c); cbn; lia.
Qed.

(** Words do not reach across a character that is not a word character. *)
Lemma findall_word_app (a b : str) (sp : char) :
  is_word sp = false ->
  forall skip prev, (skip <= length a)%nat ->
    findall_from word_pattern skip prev (a ++ sp :: b) =
    findall_from word_pattern skip prev a ++ findall_from word_pattern 0 None b.
Proof.
  intros Hsp. induction a as [|c a IH]; intros skip prev Hskip.
  - cbn [length] in Hskip. assert (skip = 0%nat) as -> by lia.
    cbn [app]. rewrite findall_word_cons, Hsp, findall_word_nil.
    apply findall_word_prev.
  - destruct skip as [|n].
    + cbn [app]. rewrite !findall_word_cons.
      destruct (is_word c).
      * rewrite take_word_app by assumption.
        rewrite IH by apply length_take_word. reflexivity.
      * apply IH. lia.
    + cbn [app Re.findall_from]. apply IH. cbn [length] in Hskip. lia.
Qed.

End Facts.
End ReFacts.

(** ** The metrics *)

Module MetricsFacts.
Import Re ReFacts MetricsCalculator MetricsSpec.

Lemma ratio_bounds (a b : Z) :
  0 <= a <= b -> 0 < b ->
  (0 <= Qred (inject_Z a / inject_Z b) <= 1)%Q.
Proof.
  intros [Ha Hab] Hb. rewrite Qred_correct.
  assert (Hb' : (inject_Z 0 < inject_Z b)%Q) by (rewrite <- Zlt_Qlt; exact Hb).
  split.
  - apply Qle_shift_div_l; [exact Hb'|]. rewrite Qmult_0_l.
    change 0%Q with (inject_Z 0). rewrite <- Zle_Qle. exact Ha.
  - apply Qle_shift_div_r; [exact Hb'|]. rewrite Qmult_1_l.
    rewrite <- Zle_Qle. exact Hab.
Qed.

Lemma sum_Z_four (a b c d : Z) : sum_Z [a; b; c; d] = a + b + c + d.
Proof. unfold sum_Z. cbn. lia. Qed.

Lemma len_Z_nonneg {A} (l : list A) : 0 <= len_Z l.
Proof. unfold len_Z. lia. Qed.

Section Facts.

Variable lower : str -> str.
Variable isalnum : char -> bool.

Local Abbreviation calculate_answer_metrics :=
  (MetricsCalculator.calculate_answer_metrics lower isalnum) (only parsing).
Local Abbreviation calculate_faithfulness_metrics :=
  (MetricsCalculator.calculate_faithfulness_metrics lower isalnum) (only parsing).
Local Abbreviation calculate_retrieval_metrics :=
  (MetricsCalculator.calculate_retrieval_metrics lower isalnum) (only parsing).
Local Abbreviation tokens := (MetricsSpec.tokens lower isalnum) (only parsing).
Local Abbreviation title_tokens :=
  (MetricsSpec.title_tokens lower isalnum) (only parsing).
Local Abbreviation response_word_set :=
  (MetricsSpec.response_word_set lower isalnum) (only parsing).
Local Abbreviation source_word_set :=
  (MetricsSpec.source_word_set lower isalnum) (only parsing).

(** The count over the four patterns is positive exactly when the
    alternation of the four is found. *)
Lemma count_citations_search (response : str) :
  1 <= count_citations lower isalnum response <->
  is_Some (search isalnum citation_alternation (lower response)).
Proof.
  unfold count_citations, citation_patterns, citation_alternation.
  cbn [List.map]. rewrite sum_Z_four, !search_alt, <- !findall_count.
  pose proof (len_Z_nonneg (findall isalnum bracket_pattern (lower response))).
  pose proof (len_Z_nonneg (findall isalnum (RLit ifolge) (lower response))).
  pose proof (len_Z_nonneg (findall isalnum (RLit artikel) (lower response))).
  pose proof (len_Z_nonneg (findall isalnum (RLit kilde) (lower response))).
  lia.
Qed.

Lemma answer_metrics_citation_count response sources am :
  calculate_answer_metrics response sources = Return am ->
  citation_count am = count_citations lower isalnum response.
Proof.
  unfold MetricsCalculator.calculate_answer_metrics.
  destruct (foldM _ _ sources) as [sw|]; cbn [bind]; [|discriminate].
  match goal with |- context [if ?c then _ else _] => destruct c end.
  - destruct (true_div _ _); cbn [bind]; [|discriminate]. intros [= <-]. reflexivity.
  - cbn [bind]. intros [= <-]. reflexivity.
Qed.

(** C10.  [has_citations] holds exactly when [citation_count] is at least
    one: both come from the same four patterns on the lowercased response. *)
Theorem citations_agree (response : str) (sources : list dict) :
  (exists fm, calculate_faithfulness_metrics response sources = Return fm)
  /\ (forall fm am,
        calculate_faithfulness_metrics response sources = Return fm ->
        calculate_answer_metrics response sources = Return am ->
        (has_citations fm = true <-> 1 <= citation_count am)).
Proof.
  split; [eexists; reflexivity|].
  intros fm am Hfm Ham.
  rewrite (answer_metrics_citation_count _ _ _ Ham), count_citations_search.
  unfold MetricsCalculator.calculate_faithfulness_metrics in Hfm.
  injection Hfm as <-. cbn [has_citations].
  apply bool_decide_eq_true.
Qed.

(** *** The overlap *)

Lemma title_tokens_cons s sources :
  title_tokens (s :: sources) = tokens (title_text s) ++ title_tokens sources.
Proof. reflexivity. Qed.

Lemma add_title_words_spec (acc : gset str) (s : dict) :
  add_title_words lower isalnum acc s =
  if title_is_text s
  then Return (acc ∪ list_to_set (tokens (title_text s)))
  else Raise AttributeError.
Proof.
  unfold add_title_words, title_is_text, title_text, lower_of.
  destruct (get_title s); reflexivity.
Qed.

Lemma source_words_fold (sources : list dict) : forall (acc : gset str),
  foldM (add_title_words lower isalnum) acc sources =
  if forallb title_is_text sources
  then Return (acc ∪ source_word_set sources)
  else Raise AttributeError.
Proof.
  induction sources as [|s sources IH]; intros acc.
  - cbn. f_equal. unfold MetricsSpec.source_word_set. cbn. set_solver.
  - cbn [foldM forallb]. rewrite add_title_words_spec.
    destruct (title_is_text s); [|reflexivity]. cbn [bind andb]. rewrite IH.
    destruct (forallb title_is_text sources); [|reflexivity]. f_equal.
    unfold MetricsSpec.source_word_set. rewrite title_tokens_cons.
    rewrite list_to_set_app_L. set_solver.
Qed.


(** *** The retrieval metrics *)

Lemma title_lengths (sources : list dict) :
  forallb title_is_text sources = true ->
  mapM_result (fun s => py_len (get_title s)) sources =
  Return (List.map (fun s => len_Z (title_text s)) sources).
Proof.
  induction sources as [|s sources IH]; [reflexivity|].
  cbn [forallb mapM_result List.map]. intros H.
  apply andb_prop in H as [Hs H]. rewrite (IH H).
  unfold title_is_text, title_text in *.
  destruct (get_title s); try discriminate. reflexivity.
Qed.

Lemma titles_joined (sep : str) (sources : list dict) :
  forallb title_is_text sources = true ->
  str_join sep (List.map get_title sources) =
  Return (join sep (List.map title_text sources)).
Proof.
  intros H. unfold str_join.
  assert (Hi : str_items (List.map get_title sources) =
               Return (List.map title_text sources)).
  { induction sources as [|s sources IH]; [reflexivity|].
    cbn [forallb List.map str_items] in *.
    apply andb_prop in H as [Hs H]. unfold title_is_text, title_text in *.
    destruct (get_title s); try discriminate. rewrite (IH H). reflexivity. }
  rewrite Hi. reflexivity.
Qed.

Lemma true_div_pos (a b : Z) :
  0 < b -> true_div a b = Return (Qred (inject_Z a / inject_Z b)).
Proof.
  intros Hb. unfold true_div. destruct (b =? 0) eqn:E; [|reflexivity].
  apply Z.eqb_eq in E. lia.
Qed.

Section Titles.

(** Lowercasing goes through a space, and the space is not alphanumeric. *)
Hypothesis lower_space :
  forall a b, lower (a ++ space :: b) = lower a ++ space :: lower b.
Hypothesis space_not_alnum : isalnum space = false.

Lemma words_space (a b : str) :
  words isalnum (a ++ space :: b) = words isalnum a ++ words isalnum b.
Proof.
  unfold words, findall. apply findall_word_app; [|lia].
  unfold is_word. rewrite space_not_alnum. reflexivity.
Qed.

(** Tokenizing the titles joined by spaces gives the tokens of each title,
    one title after the other. *)
Lemma words_joined_titles (sources : list dict) :
  sources <> [] ->
  words isalnum (lower (join [space] (List.map title_text sources))) =
  title_tokens sources.
Proof.
  induction sources as [|s sources IH]; intros Hne; [congruence|].
  destruct sources as [|s' sources'].
  - cbn. rewrite app_nil_r. reflexivity.
  - cbn [List.map]. rewrite LinesFacts.join_cons2. cbn [app].
    rewrite lower_space, words_space. cbn [List.map] in IH.
    rewrite IH by discriminate. reflexivity.
Qed.

Lemma retrieval_metrics_titles (sources : list dict) :
  sources <> [] ->
  forallb title_is_text sources = true ->
  calculate_retrieval_metrics sources =
  Return {|
    num_sources := len_Z sources;
    avg_source_length :=
      Qred (inject_Z (sum_Z (List.map (fun s => len_Z (title_text s)) sources))
            / inject_Z (len_Z sources));
    source_diversity :=
      match title_tokens sources with
      | [] => 0
      | _ :: _ =>
          Qred (inject_Z (Z.of_nat (size (list_to_set (title_tokens sources)
                                            : gset str)))
                / inject_Z (len_Z (title_tokens sources)))
      end |}.
Proof.
  intros Hne Htext. unfold MetricsCalculator.calculate_retrieval_metrics.
  destruct sources as [|s sources']; [congruence|].
  set (sources := s :: sources') in *.
  rewrite (title_lengths _ Htext). cbn [bind].
  rewrite true_div_pos by (unfold len_Z, sources; cbn [length]; lia).
  cbn [bind]. rewrite (titles_joined _ _ Htext). cbn [bind].
  rewrite (words_joined_titles sources Hne).
  destruct (title_tokens sources) as [|w ws] eqn:E; [reflexivity|].
  rewrite true_div_pos by (unfold len_Z; cbn [length]; lia).
  reflexivity.
Qed.

End Titles.

End Facts.

Lemma latin1_lower_space (a b : str) :
  latin1_lower (a ++ space :: b) = latin1_lower a ++ space :: latin1_lower b.
Proof. unfold latin1_lower. rewrite List.map_app. reflexivity. Qed.

(** C7.  On no sources the record is all zero.  On sources whose titles
    are text (a missing title is the empty text) the diversity is the number
    of distinct lowercase word tokens of all titles over the number of word
    tokens of all titles, and 0 when there is no token; the average length
    is the sum of the title lengths over the number of sources.  For the two
    titles "ab cd" and "cd ef" the diversity is 3/4. *)
Theorem retrieval_metrics_spec :
  (forall lower isalnum,
     calculate_retrieval_metrics lower isalnum [] =
     Return {| num_sources := 0; avg_source_length := 0; source_diversity := 0 |})
  /\ (forall lower isalnum,
        (forall a b, lower (a ++ space :: b) = lower a ++ space :: lower b) ->
        isalnum space = false ->
        forall sources : list dict,
          sources <> [] ->
          forallb title_is_text sources = true ->
          let toks := title_tokens lower isalnum sources in
          exists m,
            calculate_retrieval_metrics lower isalnum sources = Return m
            /\ num_sources m = len_Z sources
            /\ (avg_source_length m ==
                inject_Z (sum_Z (List.map (fun s => len_Z (title_text s)) sources))
                / inject_Z (len_Z sources))%Q
            /\ (toks = [] -> source_diversity m = 0%Q)
            /\ (toks <> [] ->
                source_diversity m ==
                inject_Z (Z.of_nat (size (list_to_set toks : gset str)))
                / inject_Z (len_Z toks))%Q)
  /\ calculate_retrieval_metrics latin1_lower latin1_isalnum
       [titled "ab cd"; titled "cd ef"] =
     Return {| num_sources := 2; avg_source_length := 5;
               source_diversity := 3 # 4 |}.
Proof.
  split; [reflexivity|]. split; [|vm_compute; reflexivity].
  intros lower isalnum Hlow Hsp sources Hne Htext toks.
  eexists. split; [apply retrieval_metrics_titles; assumption|].
  cbn [num_sources avg_source_length source_diversity]. fold toks.
  split; [reflexivity|]. split; [apply Qred_correct|]. split.
  - intros ->. reflexivity.
  - intros Hn. destruct toks; [congruence|]. apply Qred_correct.
Qed.

Lemma retrieval_metrics_spec_witness :
  exists m,
    calculate_retrieval_metrics latin1_lower latin1_isalnum snow_sources
    = Return m
    /\ num_sources m = 3
    /\ (source_diversity m == 3 # 6)%Q.
Proof.
  destruct (proj1 (proj2 retrieval_metrics_spec) latin1_lower latin1_isalnum
              latin1_lower_space eq_refl snow_sources
              ltac:(discriminate) eq_refl)
    as (m & Hm & Hn & _ & _ & Hd).
  exists m. split; [exact Hm|]. split; [exact Hn|].
  rewrite Hd by (vm_compute; discriminate). vm_compute. reflexivity.
Defined.

Lemma citations_agree_witness :
  has_citations {| has_citations := true; claims_count := 1 |} = true <->
  1 <= citation_count {| answer_length := 42; citation_count := 5;
                         answer_source_overlap := 1 # 8 |}.
Proof.
  exact (proj2 (citations_agree latin1_lower latin1_isalnum cited_response
                  snow_sources)
           {| has_citations := true; claims_count := 1 |}
           {| answer_length := 42; citation_count := 5;
              answer_source_overlap := 1 # 8 |}
           ltac:(vm_compute; reflexivity) ltac:(vm_compute; reflexivity)).
Defined.


End MetricsFacts.

(** ** Sorting and the composite ranking *)

Module SortingFacts.
Import Sorting.

Lemma sorted_impl {A} (R R' : A -> A -> Prop) (l : list A) :
  (forall a b, R a b -> R' a b) ->
  StronglySorted R l -> StronglySorted R' l.
Proof.
  intros HR. induction 1 as [|x t Hs IH Hx]; constructor; [exact IH|].
  eapply Forall_impl; [exact Hx|]. intros b. apply HR.
Qed.

Section Facts.

Context {A K : Type} (key : A -> K) (lt : K -> K -> bool).

(** [lt] is a strict weak order. *)
Hypothesis lt_asym : forall a b, lt a b = true -> lt b a = false.
Hypothesis lt_ntrans :
  forall a b c, lt a b = false -> lt b c = false -> lt a c = false.

Local Abbreviation ascending := (Sorting.ascending key lt) (only parsing).
Local Abbreviation in_class := (Sorting.in_class key lt) (only parsing).

Lemma insert_perm (x : A) (l : list A) : Permutation (insert key lt x l) (x :: l).
Proof.
  induction l as [|y t IH]; cbn [insert]; [reflexivity|].
  destruct (lt (key y) (key x)); [|reflexivity].
  rewrite IH. apply perm_swap.
Qed.

Lemma stable_sort_perm (l : list A) : Permutation (stable_sort key lt l) l.
Proof.
  induction l as [|x t IH]; cbn [stable_sort]; [reflexivity|].
  rewrite insert_perm, IH. reflexivity.
Qed.

Lemma insert_sorted (x : A) (l : list A) :
  StronglySorted ascending l -> StronglySorted ascending (insert key lt x l).
Proof.
  induction 1 as [|y t Hs IH Hy]; cbn [insert].
  - repeat constructor.
  - destruct (lt (key y) (key x)) eqn:E.
    + constructor; [exact IH|].
      rewrite insert_perm. constructor; [|exact Hy].
      apply lt_asym, E.
    + constructor; [constructor; assumption|].
      constructor; [exact E|].
      eapply Forall_impl; [exact Hy|].
      intros z Hz. unfold ascending in *. eapply lt_ntrans; eassumption.
Qed.

Lemma stable_sort_sorted (l : list A) :
  StronglySorted ascending (stable_sort key lt l).
Proof.
  induction l as [|x t IH]; cbn [stable_sort]; [constructor|].
  apply insert_sorted, IH.
Qed.

(** Insertion passes over no element of the class of the inserted one. *)
Lemma filter_insert (k : K) (x : A) (l : list A) :
  List.filter (in_class k) (insert key lt x l) =
  List.filter (in_class k) (x :: l).
Proof.
  induction l as [|y t IH]; cbn [insert]; [reflexivity|].
  destruct (lt (key y) (key x)) eqn:E; [|reflexivity].
  cbn [List.filter] in *. rewrite IH.
  destruct (in_class k y) eqn:Ey, (in_class k x) eqn:Ex; try reflexivity.
  exfalso. unfold in_class, same_key in *.
  apply andb_prop in Ey as [_ Ey], Ex as [Ex _].
  apply negb_true_iff in Ey, Ex.
  rewrite (lt_ntrans _ _ _ Ey Ex) in E. discriminate.
Qed.

Lemma stable_sort_stable (k : K) (l : list A) :
  List.filter (in_class k) (stable_sort key lt l) = List.filter (in_class k) l.
Proof.
  induction l as [|x t IH]; cbn [stable_sort]; [reflexivity|].
  rewrite filter_insert. cbn [List.filter]. rewrite IH. reflexivity.
Qed.

Lemma sorted_rev (R : A -> A -> Prop) (l : list A) :
  StronglySorted R l -> StronglySorted (flip R) (rev l).
Proof.
  induction 1 as [|x t Hs IH Hx]; cbn [rev]; [constructor|].
  apply StronglySorted_app_2; [|exact IH|repeat constructor].
  intros a b Ha Hb. apply list_elem_of_singleton in Hb. subst b.
  unfold flip. rewrite Forall_forall in Hx. apply Hx.
  apply list_elem_of_In, (proj2 (in_rev t a)), list_elem_of_In, Ha.
Qed.

(** [list.sort(key=..., reverse=True)]: the same elements, in descending
    order of keys, elements of equal keys in their original order. *)
Lemma list_sort_reverse (l : list A) :
  Permutation (list_sort key lt true l) l
  /\ StronglySorted (fun a b => lt (key a) (key b) = false)
       (list_sort key lt true l)
  /\ (forall k, List.filter (in_class k) (list_sort key lt true l)
                = List.filter (in_class k) l).
Proof.
  unfold list_sort. split; [|split].
  - rewrite <- Permutation_rev, stable_sort_perm, <- Permutation_rev. reflexivity.
  - apply (sorted_rev ascending), stable_sort_sorted.
  - intros k. rewrite List.filter_rev, stable_sort_stable, List.filter_rev.
    apply rev_involutive.
Qed.

End Facts.
End SortingFacts.

Module RankingFacts.
Import Sorting SortingFacts.

Lemma Qlt_bool_asym (a b : Q) : Qlt_bool a b = true -> Qlt_bool b a = false.
Proof.
  unfold Qlt_bool. intros H. apply negb_true_iff in H. apply negb_false_iff.
  apply Qle_bool_iff. destruct (Qlt_le_dec b a) as [Hlt|Hle]; [|exact Hle].
  exfalso. apply Qlt_le_weak, Qle_bool_iff in Hlt. congruence.
Qed.

Lemma Qlt_bool_ntrans (a b c : Q) :
  Qlt_bool a b = false -> Qlt_bool b c = false -> Qlt_bool a c = false.
Proof.
  unfold Qlt_bool. intros H1 H2.
  apply negb_false_iff, Qle_bool_iff in H1, H2.
  apply negb_false_iff, Qle_bool_iff. eapply Qle_trans; eassumption.
Qed.

Lemma same_key_Qeq (v x : Q) : same_key Qlt_bool v x = Qeq_bool x v.
Proof.
  unfold same_key, Qlt_bool. rewrite !negb_involutive.
  destruct (Qeq_bool x v) eqn:E.
  - apply Qeq_bool_iff in E. apply andb_true_intro.
    split; apply Qle_bool_iff; rewrite E; apply Qle_refl.
  - destruct (Qle_bool x v) eqn:E1, (Qle_bool v x) eqn:E2; try reflexivity.
    apply Qle_bool_iff in E1, E2.
    pose proof (Qle_antisym _ _ E1 E2) as H. apply Qeq_bool_iff in H. congruence.
Qed.


(** Three results with the score 0.8 follow the one with the score 1, in
    the order in which they came. *)
Example ranking_sample :
  option_map (List.map fst)
    (ranking [scored "hyde" 2 (1 # 2) 1 0; scored "hybrid" 1 1 2 0;
              scored "hybrid_hyde" 2 (1 # 2) 1 0; scored "plain" 4 0 0 0])
  = Some [lit "hybrid"; lit "hyde"; lit "hybrid_hyde"; lit "plain"].
Proof. vm_compute. reflexivity. Qed.

End RankingFacts.

(** * Further properties *)

(** ** The stream decoder, event by event *)

Module StreamMore.
Import Lines LinesFacts Stream StreamFacts StreamSpec.

Lemma handle_event_eq (st : parse_state) (e : value) :
  handle_event st e =
  if shape_ok e then Return (apply_event st e) else Raise AttributeError.
Proof.
  destruct e as [| | | | | |ev]; try reflexivity.
  unfold shape_ok, apply_event, handle_event, text_chunks, event_history,
    event_field, has_tag.
  cbn [get_of bind event_tag is_dict andb event_data List.filter].
  unfold has_tag. cbn [event_tag].
  set (tag := dict_get ev (lit "event") PNone).
  destruct st as [chunks srcs hist cid rid]. cbn [response_chunks st_sources
    st_conversation_history st_conversation_id st_run_id].
  destruct (eq_str tag "stream_start") eqn:E1.
  { rewrite (eq_str_excl tag "stream_start" "sources"),
            (eq_str_excl tag "stream_start" "text_chunk"),
            (eq_str_excl tag "stream_start" "stream_end") by (done || discriminate).
    cbn. rewrite app_nil_r. reflexivity. }
  destruct (eq_str tag "sources") eqn:E2.
  { rewrite (eq_str_excl tag "sources" "text_chunk"),
            (eq_str_excl tag "sources" "stream_end") by (done || discriminate).
    cbn. rewrite app_nil_r. reflexivity. }
  destruct (eq_str tag "text_chunk") eqn:E3.
  { rewrite (eq_str_excl tag "text_chunk" "stream_end") by (done || discriminate).
    reflexivity. }
  destruct (eq_str tag "stream_end") eqn:E4.
  { destruct (dict_get ev (lit "data") (PDict [])); cbn;
      rewrite ?app_nil_r; reflexivity. }
  cbn. rewrite app_nil_r. reflexivity.
Qed.

Lemma fold_handle_eq (evs : list value) : forall st,
  foldM handle_event st evs =
  if forallb shape_ok evs then Return (fold_left apply_event evs st)
  else Raise AttributeError.
Proof.
  induction evs as [|e evs IH]; intros st; [reflexivity|].
  cbn [foldM forallb fold_left]. rewrite handle_event_eq.
  destruct (shape_ok e); [cbn [bind andb]; apply IH | reflexivity].
Qed.

Lemma from_last_cons tag (f : value -> value) d e evs :
  from_last tag f d (e :: evs) =
  from_last tag f (if has_tag tag e then f e else d) evs.
Proof.
  unfold from_last, last_tagged. cbn [List.filter].
  destruct (has_tag tag e); [|reflexivity].
  destruct (List.filter (has_tag tag) evs) as [|x l]; [reflexivity|].
  rewrite last_cons_cons. destruct (last (x :: l)) eqn:E; [reflexivity|].
  apply last_None in E. discriminate.
Qed.

(** The local variables after a run of events. *)
Lemma fold_apply_fields (evs : list value) : forall st,
  let st' := fold_left apply_event evs st in
  response_chunks st' = response_chunks st ++ text_chunks evs
  /\ st_sources st' =
     from_last "sources" (fun e => event_data e (PList [])) (st_sources st) evs
  /\ st_conversation_history st' =
     from_last "stream_end" event_history (st_conversation_history st) evs
  /\ st_conversation_id st' =
     from_last "stream_start" (fun e => event_field e "conversation_id")
       (st_conversation_id st) evs
  /\ st_run_id st' =
     from_last "stream_start" (fun e => event_field e "run_id") (st_run_id st) evs.
Proof.
  induction evs as [|e evs IH]; intros st.
  - cbn. rewrite app_nil_r. auto.
  - cbn [fold_left]. destruct (IH (apply_event st e)) as (H1 & H2 & H3 & H4 & H5).
    cbv zeta. rewrite H1, H2, H3, H4, H5, !from_last_cons.
    cbn [apply_event response_chunks st_sources st_conversation_history
           st_conversation_id st_run_id].
    rewrite (text_chunks_cons e evs), app_assoc. auto.
Qed.

Lemma str_items_inv (items : list value) (parts : list str) :
  str_items items = Return parts -> items = List.map PStr parts.
Proof.
  revert parts. induction items as [|v items IH]; intros parts H.
  - injection H as <-. reflexivity.
  - cbn [str_items] in H. destruct v; try discriminate.
    destruct (str_items items) as [r|]; [|discriminate]. cbn [bind] in H.
    injection H as <-. cbn [List.map]. rewrite (IH r eq_refl). reflexivity.
Qed.

Lemma chunk_text_map (fs : list str) : List.map chunk_text (List.map PStr fs) = fs.
Proof. induction fs as [|f fs IH]; [reflexivity|]. cbn. rewrite IH. reflexivity. Qed.

(** [event_ok] is [shape_ok] together with a string in a "text_chunk". *)
Lemma event_ok_split (e : value) :
  event_ok e =
  shape_ok e
  && (if has_tag "text_chunk" e then is_str (event_data e (PStr [])) else true).
Proof.
  unfold event_ok, shape_ok, has_tag. destruct (is_dict e); [|reflexivity].
  cbn [andb]. set (tag := event_tag e).
  destruct (eq_str tag "stream_start") eqn:E1.
  { rewrite (eq_str_excl tag "stream_start" "text_chunk"),
            (eq_str_excl tag "stream_start" "stream_end") by (done || discriminate).
    reflexivity. }
  destruct (eq_str tag "sources") eqn:E2.
  { rewrite (eq_str_excl tag "sources" "text_chunk"),
            (eq_str_excl tag "sources" "stream_end") by (done || discriminate).
    reflexivity. }
  destruct (eq_str tag "text_chunk") eqn:E3.
  { rewrite (eq_str_excl tag "text_chunk" "stream_end") by (done || discriminate).
    reflexivity. }
  destruct (eq_str tag "stream_end"); [rewrite andb_true_r|]; reflexivity.
Qed.

Lemma event_ok_shape (evs : list value) :
  Forall (fun e => event_ok e = true) evs -> forallb shape_ok evs = true.
Proof.
  induction 1 as [|e evs He _ IH]; [reflexivity|].
  cbn [forallb]. rewrite event_ok_split in He.
  apply andb_prop in He as [-> _]. exact IH.
Qed.

Lemma text_chunks_ok (evs : list value) (parts : list str) :
  forallb shape_ok evs = true ->
  text_chunks evs = List.map PStr parts ->
  Forall (fun e => event_ok e = true) evs.
Proof.
  revert parts. induction evs as [|e evs IH]; intros parts Hs Ht; [constructor|].
  cbn [forallb] in Hs. apply andb_prop in Hs as [He Hs].
  rewrite (text_chunks_cons e evs) in Ht. unfold text_chunks at 1 in Ht.
  cbn [List.filter] in Ht.
  destruct (has_tag "text_chunk" e) eqn:E.
  - cbn [List.map app] in Ht. destruct parts as [|p parts]; [discriminate|].
    cbn [List.map] in Ht. injection Ht as Hd Ht.
    constructor; [|eapply IH; eassumption].
    rewrite event_ok_split, He, E, Hd. reflexivity.
  - cbn [List.map app] in Ht.
    constructor; [|eapply IH; eassumption].
    rewrite event_ok_split, He, E. reflexivity.
Qed.

Lemma decode_fold_inv (ls : list str) : forall st st',
  foldM decode_step st ls = Return st' ->
  exists evs, decode_all ls = Return evs /\ foldM handle_event st evs = Return st'.
Proof.
  induction ls as [|l ls IH]; intros st st' H.
  - exists []. cbn in *. auto.
  - cbn [foldM] in H. unfold decode_step at 1 in H.
    destruct (json_loads l) as [e|] eqn:El; [|discriminate]. cbn [bind] in H.
    destruct (handle_event st e) as [st1|] eqn:Eh; [|discriminate]. cbn [bind] in H.
    destruct (IH _ _ H) as (evs & Hd & Hf).
    exists (e :: evs). cbn [decode_all foldM]. rewrite El, Hd, Eh. auto.
Qed.

(** The decoder on a well-formed stream. *)
Lemma parse_decoded (body : str) (evs : list value) :
  stream_events body = Return evs ->
  Forall (fun e => event_ok e = true) evs ->
  _parse_ndjson_stream body = Return (decoded evs).
Proof.
  intros Hdec Hok.
  rewrite parse_unfold, (decode_all_fold _ _ Hdec), fold_handle_eq,
    (event_ok_shape _ Hok). cbn [bind].
  destruct (fold_apply_fields evs initial_state) as (H1 & H2 & H3 & H4 & H5).
  destruct (text_chunks_strings _ Hok) as (fs & Hfs).
  cbn [initial_state response_chunks st_sources st_conversation_history
         st_conversation_id st_run_id app] in *.
  rewrite (finish_strings _ fs) by (rewrite H1; exact Hfs).
  unfold decoded. rewrite H2, H3, H4, H5, Hfs, chunk_text_map. reflexivity.
Qed.

Lemma str_items_cases (items : list value) :
  str_items items =
  if forallb is_str items then Return (List.map chunk_text items)
  else Raise TypeError.
Proof.
  induction items as [|v items IH]; [reflexivity|].
  cbn [str_items forallb List.map]. destruct v; try reflexivity.
  cbn [is_str andb chunk_text]. rewrite IH.
  destruct (forallb is_str items); reflexivity.
Qed.

Lemma filter_none {A} (p : A -> bool) (l : list A) :
  Forall (fun x => p x = false) l -> List.filter p l = [].
Proof.
  induction 1 as [|x l Hx _ IH]; [reflexivity|].
  cbn [List.filter]. rewrite Hx. exact IH.
Qed.

Lemma last_tagged_split tag (pre post : list value) (e : value) :
  has_tag tag e = true ->
  Forall (fun x => has_tag tag x = false) post ->
  last_tagged tag (pre ++ e :: post) = Some e.
Proof.
  intros He Hpost. unfold last_tagged.
  rewrite List.filter_app. cbn [List.filter]. rewrite He, (filter_none _ _ Hpost).
  apply last_snoc.
Qed.

Lemma lstrip_all_space (s : str) : all_space s = true -> lstrip s = [].
Proof.
  induction s as [|c s IH]; [reflexivity|].
  unfold all_space. cbn [forallb lstrip]. intros H.
  apply andb_prop in H as [-> H]. apply IH, H.
Qed.

(** The decoder returns exactly on the bodies all of whose non-empty lines
    decode to well-formed events, and what it returns is then fixed by the
    events: the ids of the last "stream_start", the payload of the last
    "sources", the fragments in order, the history of the last
    "stream_end". *)
Theorem parse_returns_iff (body : str) (rd : ResultData.t) :
  _parse_ndjson_stream body = Return rd <->
  exists evs,
    stream_events body = Return evs
    /\ Forall (fun e => event_ok e = true) evs
    /\ rd = decoded evs.
Proof.
  split.
  - intros H. rewrite parse_unfold in H.
    destruct (foldM decode_step initial_state (ndjson_lines body)) as [st|] eqn:E;
      [|discriminate].
    cbn [bind] in H. destruct (decode_fold_inv _ _ _ E) as (evs & Hd & Hf).
    rewrite fold_handle_eq in Hf.
    destruct (forallb shape_ok evs) eqn:Hs; [|discriminate].
    injection Hf as <-.
    destruct (fold_apply_fields evs initial_state) as (H1 & _).
    cbn [initial_state response_chunks app] in H1.
    unfold finish, str_join in H.
    destruct (str_items (response_chunks (fold_left apply_event evs initial_state)))
      as [parts|] eqn:Ei; [|discriminate].
    apply str_items_inv in Ei. rewrite H1 in Ei.
    pose proof (text_chunks_ok _ _ Hs Ei) as Hok.
    exists evs. split; [exact Hd|]. split; [exact Hok|].
    pose proof (parse_decoded body evs Hd Hok) as Hp.
    rewrite parse_unfold, E in Hp. cbn [bind] in Hp.
    unfold finish, str_join in Hp. rewrite H1, Ei, str_items_map in Hp.
    cbn [bind] in H, Hp. congruence.
  - intros (evs & Hd & Hok & ->). apply parse_decoded; assumption.
Qed.

Lemma parse_returns_iff_witness :
  _parse_ndjson_stream sample_body = Return (decoded (events_of sample_body)).
Proof.
  apply (proj2 (parse_returns_iff sample_body _)).
  exists (events_of sample_body).
  split; [vm_compute; reflexivity|]. split; [exact sample_events_ok | reflexivity].
Defined.

(** Which exception leaves the decoder.  The first line that does not
    decode, after lines that are events, gives a [JSONDecodeError]; the first
    line that decodes to something else than an object, or to a "stream_end"
    whose payload is not an object, gives an [AttributeError]; a fragment
    that is not a string gives a [TypeError], and only once every line has
    been taken in. *)
Theorem parse_raises (body : str) :
  (forall pre l post evs,
     ndjson_lines body = pre ++ l :: post ->
     decode_all pre = Return evs ->
     forallb shape_ok evs = true ->
     (json_loads l = Raise JSONDecodeError ->
      _parse_ndjson_stream body = Raise JSONDecodeError)
     /\ (forall e, json_loads l = Return e -> shape_ok e = false ->
                   _parse_ndjson_stream body = Raise AttributeError))
  /\ (forall evs,
        stream_events body = Return evs ->
        forallb shape_ok evs = true ->
        forallb is_str (text_chunks evs) = false ->
        _parse_ndjson_stream body = Raise TypeError).
Proof.
  split.
  - intros pre l post evs Hl Hpre Hs.
    assert (Hrun : forall r, decode_step (fold_left apply_event evs initial_state) l
                             = Raise r ->
                             _parse_ndjson_stream body = Raise r).
    { intros r Hr. rewrite parse_unfold, Hl, foldM_app.
      rewrite (decode_all_fold _ _ Hpre), fold_handle_eq, Hs. cbn [bind foldM].
      rewrite Hr. reflexivity. }
    split.
    + intros Hbad. apply Hrun. unfold decode_step. rewrite Hbad. reflexivity.
    + intros e He Hshape. apply Hrun. unfold decode_step. rewrite He. cbn [bind].
      rewrite handle_event_eq, Hshape. reflexivity.
  - intros evs Hd Hs Hstr.
    rewrite parse_unfold, (decode_all_fold _ _ Hd), fold_handle_eq, Hs. cbn [bind].
    destruct (fold_apply_fields evs initial_state) as (H1 & _).
    cbn [initial_state response_chunks app] in H1.
    unfold finish, str_join. rewrite H1, str_items_cases, Hstr. reflexivity.
Qed.

Lemma parse_raises_witness :
  _parse_ndjson_stream (join [nl] [chunk_line "a"; qlit "[1, 2]"; lit "oops"])
  = Raise AttributeError
  /\ _parse_ndjson_stream
       (join [nl] [qlit "{'event':'text_chunk','data':7}"; chunk_line "a"])
     = Raise TypeError.
Proof.
  split.
  - refine (proj2 (proj1 (parse_raises _) [chunk_line "a"] (qlit "[1, 2]")
                     [lit "oops"] _ _ _ _) (PList [PInt 1; PInt 2]) _ _);
      vm_compute; reflexivity.
  - refine (proj2 (parse_raises _) _ _ _ _);
      [vm_compute; reflexivity | vm_compute; reflexivity | vm_compute; reflexivity].
Defined.

(** Events of different kinds do not interfere: two well-formed streams
    that hold, kind by kind, the same events in the same order are decoded
    to the same result, however the kinds are interleaved. *)
Theorem kinds_commute (b1 b2 : str) (evs1 evs2 : list value) :
  stream_events b1 = Return evs1 ->
  stream_events b2 = Return evs2 ->
  Forall (fun e => event_ok e = true) evs1 ->
  Forall (fun e => event_ok e = true) evs2 ->
  (forall tag, In tag tags ->
     List.filter (has_tag tag) evs1 = List.filter (has_tag tag) evs2) ->
  _parse_ndjson_stream b1 = _parse_ndjson_stream b2.
Proof.
  intros H1 H2 Hok1 Hok2 Hsame.
  rewrite (parse_decoded _ _ H1 Hok1), (parse_decoded _ _ H2 Hok2).
  unfold decoded, from_last, last_tagged, text_chunks.
  rewrite (Hsame "stream_start"%string), (Hsame "sources"%string),
    (Hsame "text_chunk"%string), (Hsame "stream_end"%string)
    by (unfold tags; cbn; tauto).
  reflexivity.
Qed.

Lemma kinds_commute_witness :
  _parse_ndjson_stream
    (join [nl] [chunk_line "a"; sources_line "s"; chunk_line "b"; start_line])
  = _parse_ndjson_stream
      (join [nl] [start_line; chunk_line "a"; chunk_line "b"; sources_line "s"]).
Proof.
  apply (kinds_commute _ _
           (events_of (join [nl] [chunk_line "a"; sources_line "s";
                                  chunk_line "b"; start_line]))
           (events_of (join [nl] [start_line; chunk_line "a"; chunk_line "b";
                                  sources_line "s"]))).
  - vm_compute. reflexivity.
  - vm_compute. reflexivity.
  - vm_compute. repeat constructor.
  - vm_compute. repeat constructor.
  - intros tag Htag. unfold tags in Htag. cbn [In] in Htag.
    destruct Htag as [<-|[<-|[<-|[<-|[]]]]]; vm_compute; reflexivity.
Defined.

(** A body of white space only, the empty body included, is decoded to
    the empty result: no ids, no text, no sources, no history. *)
Theorem blank_body (body : str) :
  all_space body = true -> _parse_ndjson_stream body = Return empty_result.
Proof.
  intros H. unfold _parse_ndjson_stream, strip, rstrip.
  rewrite (lstrip_all_space _ H). reflexivity.
Qed.

Lemma blank_body_witness :
  _parse_ndjson_stream [32%N; nl; 9%N; 13%N; nl] = Return empty_result.
Proof. apply blank_body. reflexivity. Defined.

(** Both ids come from the last "stream_start" event: a field that this
    event does not carry is the empty string, whatever an earlier
    "stream_start" said. *)
Theorem last_stream_start_wins (body : str) (evs pre post : list value)
    (e : value) :
  stream_events body = Return evs ->
  Forall (fun x => event_ok x = true) evs ->
  evs = pre ++ e :: post ->
  has_tag "stream_start" e = true ->
  Forall (fun x => has_tag "stream_start" x = false) post ->
  exists rd,
    _parse_ndjson_stream body = Return rd
    /\ ResultData.conversation_id rd = event_field e "conversation_id"
    /\ ResultData.run_id rd = event_field e "run_id".
Proof.
  intros Hd Hok -> He Hpost. exists (decoded (pre ++ e :: post)).
  split; [apply parse_decoded; assumption|].
  unfold decoded, from_last. cbn [ResultData.conversation_id ResultData.run_id].
  rewrite (last_tagged_split _ pre post e He Hpost). auto.
Qed.

Lemma last_stream_start_wins_witness :
  exists rd,
    _parse_ndjson_stream restart_body = Return rd
    /\ ResultData.conversation_id rd = PStr (lit "c2")
    /\ ResultData.run_id rd = PStr [].
Proof.
  refine (last_stream_start_wins restart_body (events_of restart_body)
            (firstn 2 (events_of restart_body)) []
            (nth 2 (events_of restart_body) PNone) _ _ _ _ _).
  - vm_compute. reflexivity.
  - vm_compute. repeat constructor.
  - vm_compute. reflexivity.
  - vm_compute. reflexivity.
  - constructor.
Defined.

(** A kind of event that does not occur leaves its field at the default:
    empty ids, the empty text, no sources, no history. *)
Theorem absent_kinds_default (body : str) (evs : list value) :
  stream_events body = Return evs ->
  Forall (fun x => event_ok x = true) evs ->
  exists rd,
    _parse_ndjson_stream body = Return rd
    /\ (Forall (fun x => has_tag "stream_start" x = false) evs ->
        ResultData.conversation_id rd = PStr [] /\ ResultData.run_id rd = PStr [])
    /\ (Forall (fun x => has_tag "text_chunk" x = false) evs ->
        ResultData.response rd = [])
    /\ (Forall (fun x => has_tag "sources" x = false) evs ->
        ResultData.sources rd = PList [])
    /\ (Forall (fun x => has_tag "stream_end" x = false) evs ->
        ResultData.conversation_history rd = PList []).
Proof.
  intros Hd Hok. exists (decoded evs). split; [apply parse_decoded; assumption|].
  unfold decoded, from_last, last_tagged, text_chunks.
  cbn [ResultData.conversation_id ResultData.run_id ResultData.response
         ResultData.sources ResultData.conversation_history].
  split; [|split; [|split]]; intros H; rewrite (filter_none _ _ H); auto.
Qed.

Lemma absent_kinds_default_witness :
  exists rd,
    _parse_ndjson_stream (join [nl] [step_line; chunk_line "a"]) = Return rd
    /\ ResultData.sources rd = PList []
    /\ ResultData.conversation_history rd = PList [].
Proof.
  destruct (absent_kinds_default (join [nl] [step_line; chunk_line "a"])
              (events_of (join [nl] [step_line; chunk_line "a"]))
              ltac:(vm_compute; reflexivity)
              ltac:(vm_compute; repeat constructor))
    as (rd & Hrd & _ & _ & Hs & Hh).
  exists rd. split; [exact Hrd|].
  split; [apply Hs | apply Hh]; vm_compute; repeat constructor.
Defined.

End StreamMore.

(** ** The metadata requests *)

Module ConnectorMore.
Import ConnectorFacts.

Lemma mapM_result_Forall2 {A B} (f : A -> result B) (l : list A) (l' : list B) :
  mapM_result f l = Return l' <-> Forall2 (fun x y => f x = Return y) l l'.
Proof.
  revert l'. induction l as [|x l IH]; intros l'; cbn [mapM_result].
  - split; [intros [= <-]; constructor | intros H; inversion H; reflexivity].
  - split.
    + destruct (f x) as [y|] eqn:E; [|discriminate]. cbn [bind].
      destruct (mapM_result f l) as [ys|]; [|discriminate]. cbn [bind].
      intros [= <-]. constructor; [exact E | apply IH; reflexivity].
    + intros H. inversion H as [|? y ? ys Hx Hl]; subst.
      rewrite Hx. cbn [bind]. apply IH in Hl. rewrite Hl. reflexivity.
Qed.

Lemma mapM_result_raises {A B} (f : A -> result B) (l : list A) (x : A) :
  In x l -> is_return (f x) = false -> is_return (mapM_result f l) = false.
Proof.
  intros Hin Hx. induction l as [|y l IH]; [destruct Hin|].
  cbn [mapM_result]. destruct Hin as [-> | Hin].
  - destruct (f x); [discriminate | reflexivity].
  - destruct (f y); [|reflexivity]. cbn [bind].
    specialize (IH Hin). destruct (mapM_result f l); [discriminate | reflexivity].
Qed.

Lemma WorkflowMetadata_init_raise (v : value) (e : exn) :
  WorkflowMetadata_init v = Raise e -> e = TypeError \/ e = ValidationError.
Proof.
  unfold WorkflowMetadata_init. destruct v; try (intros [= <-]; auto).
  match goal with |- context [match ?o with Some _ => _ | None => _ end] =>
    destruct o end; [discriminate|]. intros [= <-]. auto.
Qed.

Lemma WorkflowMetadata_init_dict_raise (d : dict) (e : exn) :
  WorkflowMetadata_init (PDict d) = Raise e -> e = ValidationError.
Proof.
  unfold WorkflowMetadata_init.
  match goal with |- context [match ?o with Some _ => _ | None => _ end] =>
    destruct o end; [discriminate|]. intros [= <-]. reflexivity.
Qed.

(** The body of [get_workflow_metadata] once a success response is in. *)
Lemma get_workflow_metadata_cases client self workflow_id :
  get_workflow_metadata client self workflow_id =
  match get client (metadata_url self workflow_id) with
  | Raise (RequestError detail) =>
      Raise (ConnectionError (connect_message self detail))
  | Raise e => Raise e
  | Return resp =>
      if is_success resp then
        let* data := json_loads (text resp) in WorkflowMetadata_init data
      else Raise (HTTPStatusError (status_code resp) (text resp))
  end.
Proof.
  unfold get_workflow_metadata.
  destruct (get client _) as [resp|e]; cbn [bind try_except].
  - unfold raise_for_status. destruct (is_success resp); cbn [bind try_except];
      [|reflexivity].
    destruct (json_loads (text resp)) as [data|e] eqn:E; cbn [bind].
    + destruct (WorkflowMetadata_init data) as [m|e] eqn:Ei; [reflexivity|].
      apply WorkflowMetadata_init_raise in Ei as [-> | ->]; reflexivity.
    + apply json_loads_raise in E. subst. reflexivity.
  - destruct e; reflexivity.
Qed.



Lemma list_workflows_cases client self :
  list_workflows client self =
  match get client (list_url self) with
  | Raise (RequestError detail) =>
      Raise (ConnectionError (connect_message self detail))
  | Raise e => Raise e
  | Return resp =>
      if is_success resp then
        let* workflows_data := json_loads (text resp) in
        let* items := py_iter workflows_data in
        mapM_result WorkflowMetadata_init items
      else Raise (HTTPStatusError (status_code resp) (text resp))
  end.
Proof.
  unfold list_workflows.
  destruct (get client _) as [resp|e]; cbn [bind try_except].
  - unfold raise_for_status. destruct (is_success resp); cbn [bind try_except];
      [|reflexivity].
    destruct (json_loads (text resp)) as [data|e] eqn:E; cbn [bind].
    + destruct (py_iter data) as [items|e] eqn:Ep; cbn [bind].
      * destruct (mapM_result WorkflowMetadata_init items) as [l|e] eqn:Em;
          [reflexivity|].
        assert (He : e = TypeError \/ e = ValidationError).
        { clear Ep. revert e Em. induction items as [|x items IH]; intros e;
            cbn [mapM_result]; [discriminate|].
          destruct (WorkflowMetadata_init x) eqn:Ex; cbn [bind].
          - destruct (mapM_result WorkflowMetadata_init items); cbn [bind];
              [discriminate|]. intros [= <-]. apply IH. reflexivity.
          - intros [= <-]. eapply WorkflowMetadata_init_raise, Ex. }
        destruct He as [-> | ->]; reflexivity.
      * destruct data; try discriminate; injection Ep as <-; reflexivity.
    + apply json_loads_raise in E. subst. reflexivity.
  - destruct e; reflexivity.
Qed.

(** [list_workflows] on an answer that is a JSON array: it returns one
    record per element, in the order of the array, when every element
    validates, and it raises, returning no part of the list, as soon as one
    element does not.  An answer with a status outside 200-299 leaves as the
    [HTTPStatusError] of httpx. *)
Theorem list_workflows_all_or_nothing client self (resp : Response)
    (items : list value) :
  get client (list_url self) = Return resp ->
  (is_success resp = false ->
   list_workflows client self
   = Raise (HTTPStatusError (status_code resp) (text resp)))
  /\ (is_success resp = true ->
      json_loads (text resp) = Return (PList items) ->
      (forall l, list_workflows client self = Return l <->
                 Forall2 (fun item m => WorkflowMetadata_init item = Return m)
                   items l)
      /\ (forall item, In item items ->
            is_return (WorkflowMetadata_init item) = false ->
            is_return (list_workflows client self) = false)).
Proof.
  intros Hget. rewrite list_workflows_cases, Hget. split.
  - intros ->. reflexivity.
  - intros -> ->. cbn [bind py_iter]. split.
    + intros l. apply mapM_result_Forall2.
    + intros item Hin Hbad. eapply mapM_result_raises; eassumption.
Qed.

Lemma list_workflows_all_or_nothing_witness :
  list_workflows
    (replying 200 (lit "[" ++ metadata_json "a" ++ lit "," ++ metadata_json "b"
                     ++ lit "]")) localhost
  = Return [metadata_record "a"; metadata_record "b"].
Proof.
  refine (proj2 (proj1 (proj2 (list_workflows_all_or_nothing
            (replying 200 (lit "[" ++ metadata_json "a" ++ lit ","
                             ++ metadata_json "b" ++ lit "]"))
            localhost _ _ eq_refl) eq_refl _) _) _).
  - vm_compute. reflexivity.
  - repeat (constructor; [vm_compute; reflexivity|]). constructor.
Defined.

(** ** Validation and [model_dump] *)

Lemma validate_Source_fields (item : value) (s : Source.t) :
  validate_Source item = Some s ->
  exists d,
    item = PDict d
    /\ dict_lookup d (lit "title") = Some (PStr (Source.title s))
    /\ dict_lookup d (lit "url") = Some (PStr (Source.url s)).
Proof.
  unfold validate_Source. destruct item as [| | | | | |d]; try discriminate.
  unfold validate_field. intros H.
  destruct (dict_lookup d (lit "id") ≫= validate_int_or_str) as [i|];
    [|discriminate]. cbn [mbind option_bind] in H.
  destruct (dict_lookup d (lit "title")) as [vt|] eqn:Et; [|discriminate].
  destruct vt; cbn [mbind option_bind validate_str] in H; try discriminate.
  destruct (dict_lookup d (lit "url")) as [vu|] eqn:Eu; [|discriminate].
  destruct vu; cbn [mbind option_bind validate_str] in H; try discriminate.
  injection H as <-. exists d. cbn [Source.title Source.url]. auto.
Qed.


(** The sources of a [WorkflowResult] are the items of the "sources"
    payload, one for one and in order, each with the title and the url of
    its item; the ids and the response are those of the decoded
    dictionary. *)
Theorem validated_sources_in_order (rd : ResultData.t) (wr : WorkflowResult.t) :
  WorkflowResult_init rd = Return wr ->
  ResultData.conversation_id rd = PStr (WorkflowResult.conversation_id wr)
  /\ ResultData.run_id rd = PStr (WorkflowResult.run_id wr)
  /\ ResultData.response rd = WorkflowResult.response wr
  /\ exists items,
       ResultData.sources rd = PList items
       /\ Forall2
            (fun item s =>
               exists d,
                 item = PDict d
                 /\ dict_lookup d (lit "title") = Some (PStr (Source.title s))
                 /\ dict_lookup d (lit "url") = Some (PStr (Source.url s)))
            items (WorkflowResult.sources wr).
Proof.
  unfold WorkflowResult_init. intros H.
  destruct (ResultData.conversation_id rd) as [| | | |cid| |]; try discriminate.
  destruct (ResultData.run_id rd) as [| | | |rid| |]; try discriminate.
  cbn [validate_str mbind option_bind] in H.
  destruct (ResultData.sources rd) as [| | | | |items|]; try discriminate.
  cbn [validate_list] in H.
  destruct (mapM validate_Source items) as [srcs|] eqn:Es; [|discriminate].
  cbn [mbind option_bind] in H.
  destruct (validate_list validate_ConversationMessage
              (ResultData.conversation_history rd)) as [hist|]; [|discriminate].
  cbn [mbind option_bind] in H. injection H as <-.
  cbn [WorkflowResult.conversation_id WorkflowResult.run_id
         WorkflowResult.response WorkflowResult.sources].
  repeat split. exists items. split; [reflexivity|].
  apply mapM_Some in Es. eapply Forall2_impl; [exact Es|].
  intros item s Hs. apply validate_Source_fields, Hs.
Qed.

Lemma validated_sources_in_order_witness :
  exists items,
    PList [PDict (titled "Sne")] = PList items
    /\ Forall2
         (fun item s =>
            exists d,
              item = PDict d
              /\ dict_lookup d (lit "title") = Some (PStr (Source.title s))
              /\ dict_lookup d (lit "url") = Some (PStr (Source.url s)))
         items [Source.mk (inl 1) (lit "Sne") (lit "u")].
Proof.
  exact (proj2 (proj2 (proj2 (validated_sources_in_order
    {| ResultData.conversation_id := PStr (lit "c");
       ResultData.run_id := PStr (lit "r");
       ResultData.response := lit "x";
       ResultData.sources := PList [PDict (titled "Sne")];
       ResultData.conversation_history := PList [] |}
    {| WorkflowResult.conversation_id := lit "c";
       WorkflowResult.run_id := lit "r";
       WorkflowResult.response := lit "x";
       WorkflowResult.sources := [Source.mk (inl 1) (lit "Sne") (lit "u")];
       WorkflowResult.conversation_history := [] |}
    eq_refl)))).
Defined.

End ConnectorMore.

(** ** The metrics: errors, bounds and extremes *)

Module MetricsMore.
Import Re ReFacts MetricsCalculator MetricsSpec MetricsFacts.

(** The size of the set of a list against the length of the list. *)
Lemma size_list_to_set_le (l : list str) :
  (size (list_to_set l : gset str) <= length l)%nat.
Proof.
  induction l as [|x l IH]; [rewrite list_to_set_nil, size_empty; lia|].
  rewrite list_to_set_cons. cbn [length].
  pose proof (size_union_alt ({[x]} : gset str) (list_to_set l)) as H.
  rewrite size_singleton in H.
  pose proof (subseteq_size (list_to_set l ∖ {[x]} : gset str) (list_to_set l)
                ltac:(set_solver)).
  lia.
Qed.

Lemma size_list_to_set_NoDup (l : list str) :
  size (list_to_set l : gset str) = length l <-> NoDup l.
Proof.
  split; [|apply size_list_to_set].
  induction l as [|x l IH]; [constructor|].
  rewrite list_to_set_cons. cbn [length]. intros H.
  pose proof (size_list_to_set_le l) as Hle.
  destruct (decide (x ∈ l)) as [Hin|Hnin].
  - exfalso. rewrite (subseteq_union_1_L ({[x]} : gset str) (list_to_set l)) in H
      by set_solver. lia.
  - rewrite size_union in H by set_solver. rewrite size_singleton in H.
    constructor; [exact Hnin|]. apply IH. lia.
Qed.

Lemma inject_Z_nonzero (b : Z) : 0 < b -> ~ (inject_Z b == 0)%Q.
Proof.
  intros Hb Hz. change 0%Q with (inject_Z 0) in Hz.
  apply (proj1 (inject_Z_injective b 0)) in Hz. lia.
Qed.

Lemma ratio_times (a b : Z) :
  0 < b -> (inject_Z a / inject_Z b * inject_Z b == inject_Z a)%Q.
Proof.
  intros Hb. unfold Qdiv.
  rewrite <- Qmult_assoc, (Qmult_comm (/ _)), Qmult_inv_r, Qmult_1_r
    by (apply inject_Z_nonzero, Hb).
  reflexivity.
Qed.

Lemma ratio_eq_one (a b : Z) :
  0 < b -> (inject_Z a / inject_Z b == 1)%Q <-> a = b.
Proof.
  intros Hb. split.
  - intros H. apply (proj1 (inject_Z_injective a b)).
    rewrite <- (ratio_times a b Hb), H. apply Qmult_1_l.
  - intros ->. apply Qmult_inv_r, inject_Z_nonzero, Hb.
Qed.

Lemma ratio_eq_zero (a b : Z) :
  0 < b -> (inject_Z a / inject_Z b == 0)%Q <-> a = 0.
Proof.
  intros Hb. split.
  - intros H. apply (proj1 (inject_Z_injective a 0)).
    rewrite <- (ratio_times a b Hb), H. apply Qmult_0_l.
  - intros ->. unfold Qdiv. apply Qmult_0_l.
Qed.

Lemma ratio_pos (a b : Z) :
  0 < a -> 0 < b -> (0 < inject_Z a / inject_Z b)%Q.
Proof.
  intros Ha Hb. apply Qlt_shift_div_l.
  - change 0%Q with (inject_Z 0). rewrite <- Zlt_Qlt. exact Hb.
  - rewrite Qmult_0_l. change 0%Q with (inject_Z 0). rewrite <- Zlt_Qlt. exact Ha.
Qed.

Lemma py_len_raise (v : value) (e : exn) : py_len v = Raise e -> e = TypeError.
Proof. destruct v; cbn; congruence. Qed.

Lemma lengths_raise (l : list dict) (e : exn) :
  mapM_result (fun s => py_len (get_title s)) l = Raise e -> e = TypeError.
Proof.
  induction l as [|s l IH]; cbn [mapM_result]; [discriminate|].
  destruct (py_len (get_title s)) eqn:E; cbn [bind].
  - destruct (mapM_result _ l); cbn [bind]; [discriminate|].
    intros [= <-]. apply IH. reflexivity.
  - intros [= <-]. eapply py_len_raise, E.
Qed.

Lemma titles_not_text (sep : str) (sources : list dict) :
  forallb title_is_text sources = false ->
  str_join sep (List.map get_title sources) = Raise TypeError.
Proof.
  intros H. unfold str_join.
  assert (Hi : str_items (List.map get_title sources) = Raise TypeError).
  { induction sources as [|s sources IH]; [discriminate|].
    cbn [forallb List.map str_items] in *. unfold title_is_text in H at 1.
    destruct (get_title s); try reflexivity.
    cbn [andb] in H. rewrite (IH H). reflexivity. }
  rewrite Hi. reflexivity.
Qed.

Section Facts.

Variable lower : str -> str.
Variable isalnum : char -> bool.

Local Abbreviation calculate_answer_metrics :=
  (MetricsCalculator.calculate_answer_metrics lower isalnum) (only parsing).
Local Abbreviation calculate_faithfulness_metrics :=
  (MetricsCalculator.calculate_faithfulness_metrics lower isalnum) (only parsing).
Local Abbreviation calculate_retrieval_metrics :=
  (MetricsCalculator.calculate_retrieval_metrics lower isalnum) (only parsing).
Local Abbreviation evaluate_response :=
  (MetricsCalculator.evaluate_response lower isalnum) (only parsing).
Local Abbreviation response_word_set :=
  (MetricsSpec.response_word_set lower isalnum) (only parsing).
Local Abbreviation source_word_set :=
  (MetricsSpec.source_word_set lower isalnum) (only parsing).

Local Abbreviation joined_tokens :=
  (MetricsSpec.joined_tokens lower isalnum) (only parsing).

Lemma retrieval_metrics_eq (sources : list dict) :
  sources <> [] ->
  forallb title_is_text sources = true ->
  calculate_retrieval_metrics sources =
  Return {|
    num_sources := len_Z sources;
    avg_source_length :=
      Qred (inject_Z (sum_Z (List.map (fun s => len_Z (title_text s)) sources))
            / inject_Z (len_Z sources));
    source_diversity :=
      match joined_tokens sources with
      | [] => 0
      | _ :: _ =>
          Qred (inject_Z (Z.of_nat (size (list_to_set (joined_tokens sources)
                                            : gset str)))
                / inject_Z (len_Z (joined_tokens sources)))
      end |}.
Proof.
  intros Hne Htext. unfold MetricsCalculator.calculate_retrieval_metrics.
  destruct sources as [|s sources']; [congruence|].
  set (sources := s :: sources') in *.
  rewrite (title_lengths _ Htext). cbn [bind].
  rewrite true_div_pos by (unfold len_Z, sources; cbn [length]; lia).
  cbn [bind]. rewrite (titles_joined _ _ Htext). cbn [bind].
  fold (MetricsSpec.joined_tokens lower isalnum sources).
  destruct (joined_tokens sources) as [|w ws] eqn:E; [reflexivity|].
  rewrite true_div_pos by (unfold len_Z; cbn [length]; lia).
  reflexivity.
Qed.

Lemma retrieval_metrics_raise (sources : list dict) :
  forallb title_is_text sources = false ->
  calculate_retrieval_metrics sources = Raise TypeError.
Proof.
  intros H. unfold MetricsCalculator.calculate_retrieval_metrics.
  destruct sources as [|s sources']; [discriminate|].
  set (sources := s :: sources') in *.
  destruct (mapM_result (fun s => py_len (get_title s)) sources) as [lens|e] eqn:E;
    cbn [bind].
  - rewrite true_div_pos by (unfold len_Z, sources; cbn [length]; lia).
    cbn [bind]. rewrite (titles_not_text _ _ H). reflexivity.
  - apply lengths_raise in E. subst. reflexivity.
Qed.

Lemma answer_metrics_eq (response : str) (sources : list dict) :
  let R := response_word_set response in
  let S := source_word_set sources in
  calculate_answer_metrics response sources =
  if forallb title_is_text sources then
    Return {| answer_length := len_Z response;
              citation_count := count_citations lower isalnum response;
              answer_source_overlap :=
                if negb (bool_decide (R = ∅)) && negb (bool_decide (S = ∅))
                then Qred (inject_Z (Z.of_nat (size (R ∩ S)))
                           / inject_Z (Z.of_nat (size R)))
                else 0 |}
  else Raise AttributeError.
Proof.
  intros R S.
  unfold MetricsCalculator.calculate_answer_metrics. rewrite source_words_fold.
  destruct (forallb title_is_text sources); [|reflexivity]. cbn [bind].
  rewrite (left_id_L ∅ (∪)).
  fold (MetricsSpec.tokens lower isalnum response).
  fold (MetricsSpec.response_word_set lower isalnum response). fold R S.
  destruct (bool_decide (R = ∅)) eqn:ER; [reflexivity|].
  destruct (bool_decide (S = ∅)) eqn:ES; [reflexivity|].
  cbn [negb andb]. unfold true_div.
  apply bool_decide_eq_false in ER.
  destruct (Z.of_nat (size R) =? 0) eqn:E0; [|reflexivity].
  exfalso. apply ER. apply Z.eqb_eq in E0.
  apply leibniz_equiv, size_empty_iff. lia.
Qed.

Lemma evaluate_response_returns (query workflow_id response : str)
    (sources : list dict) :
  forallb title_is_text sources = true ->
  exists er,
    evaluate_response query workflow_id response sources = Return er
    /\ EvaluationResult_echo er = (query, workflow_id, response, sources)
    /\ num_sources (retrieval er) = len_Z sources
    /\ answer_length (answer er) = len_Z response.
Proof.
  intros H. unfold MetricsCalculator.evaluate_response.
  rewrite answer_metrics_eq, H.
  destruct sources as [|s sources'] eqn:Es.
  - cbn [MetricsCalculator.calculate_retrieval_metrics bind
           MetricsCalculator.calculate_faithfulness_metrics].
    eexists. split; [reflexivity|]. cbn. auto.
  - rewrite retrieval_metrics_eq by (congruence || exact H).
    cbn [bind MetricsCalculator.calculate_faithfulness_metrics].
    eexists. split; [reflexivity|]. cbn. auto.
Qed.

(** [evaluate_response] returns exactly when every title is text (a
    missing title counts as text); it then echoes its four arguments and
    counts the sources and the characters of the response.  A title that is
    not text makes it raise a [TypeError], from the retrieval metrics, which
    come first. *)
Theorem evaluate_response_outcomes (query workflow_id response : str)
    (sources : list dict) :
  (forallb title_is_text sources = true ->
   exists er,
     evaluate_response query workflow_id response sources = Return er
     /\ EvaluationResult_echo er = (query, workflow_id, response, sources)
     /\ num_sources (retrieval er) = len_Z sources
     /\ answer_length (answer er) = len_Z response)
  /\ (forallb title_is_text sources = false ->
      evaluate_response query workflow_id response sources = Raise TypeError).
Proof.
  split; intros H.
  - apply evaluate_response_returns, H.
  - unfold MetricsCalculator.evaluate_response.
    rewrite (retrieval_metrics_raise sources H). reflexivity.
Qed.

(** The diversity is a proportion: it lies between 0 and 1, it is positive
    as soon as the titles hold a word, and it is 1 exactly when no word
    occurs twice. *)
Theorem source_diversity_bounds (sources : list dict) :
  sources <> [] ->
  forallb title_is_text sources = true ->
  exists m,
    calculate_retrieval_metrics sources = Return m
    /\ (0 <= source_diversity m <= 1)%Q
    /\ (joined_tokens sources <> [] ->
        (0 < source_diversity m)%Q
        /\ (source_diversity m == 1 <-> NoDup (joined_tokens sources))%Q).
Proof.
  intros Hne Htext. eexists. split; [apply retrieval_metrics_eq; assumption|].
  cbn [source_diversity].
  pose proof (size_list_to_set_le (joined_tokens sources)) as Hle.
  destruct (joined_tokens sources) as [|w ws] eqn:E.
  - split; [split; discriminate|]. congruence.
  - set (toks := w :: ws) in *.
    assert (Hlen : 0 < len_Z toks) by (unfold len_Z, toks; cbn [length]; lia).
    assert (Hsz : 0 < Z.of_nat (size (list_to_set toks : gset str))).
    { assert (size (list_to_set toks : gset str) <> 0%nat); [|lia].
      intros H0. apply size_empty_iff in H0. unfold toks in H0. set_solver. }
    split; [apply ratio_bounds; unfold len_Z; lia|]. intros _.
    rewrite Qred_correct. split; [apply ratio_pos; assumption|].
    rewrite (ratio_eq_one _ _ Hlen), <- size_list_to_set_NoDup.
    unfold len_Z. lia.
Qed.

(** The extremes of the overlap: it is 1 exactly when the response has
    words and all of them are source-title words, and 0 exactly when no
    response word is a source-title word. *)
Theorem overlap_extremes (response : str) (sources : list dict)
    (am : AnswerMetrics) :
  let R := response_word_set response in
  let S := source_word_set sources in
  calculate_answer_metrics response sources = Return am ->
  (answer_source_overlap am == 1 <-> R <> ∅ /\ R ⊆ S)%Q
  /\ (answer_source_overlap am == 0 <-> R ∩ S = ∅)%Q.
Proof.
  intros R S. rewrite answer_metrics_eq. fold R S.
  destruct (forallb title_is_text sources); [|discriminate].
  intros [= <-]. cbn [answer_source_overlap].
  destruct (bool_decide (R = ∅)) eqn:ER.
  { apply bool_decide_eq_true in ER. cbn [negb andb]. split.
    - split; [discriminate | intros [H _]; congruence].
    - split; [intros _; rewrite ER; set_solver | reflexivity]. }
  destruct (bool_decide (S = ∅)) eqn:ES.
  { apply bool_decide_eq_true in ES. apply bool_decide_eq_false in ER.
    cbn [negb andb]. split.
    - split; [discriminate|]. intros [_ H]. exfalso. apply ER.
      rewrite ES in H. set_solver.
    - split; [intros _; rewrite ES; set_solver | reflexivity]. }
  cbn [negb andb]. apply bool_decide_eq_false in ER, ES.
  assert (Hpos : 0 < Z.of_nat (size R)).
  { assert (size R <> 0%nat); [|lia].
    intros H0. apply ER, leibniz_equiv, size_empty_iff, H0. }
  rewrite !Qred_correct, (ratio_eq_one _ _ Hpos), (ratio_eq_zero _ _ Hpos).
  split.
  - split.
    + intros H. split; [exact ER|].
      assert (Heq : R ∩ S = R).
      { apply set_subseteq_size_eq; [set_solver | lia]. }
      set_solver.
    + intros [_ Hsub]. replace (R ∩ S) with R by set_solver. reflexivity.
  - split.
    + intros H. apply leibniz_equiv, size_empty_iff. lia.
    + intros ->. rewrite size_empty. reflexivity.
Qed.

(** The answer metrics and the citation flag read the response through
    its lowercase form only: two responses with the same lowercase form get
    the same citation count, the same overlap and the same flag. *)
Theorem response_case_insensitive (r1 r2 : str) (sources : list dict) :
  lower r1 = lower r2 ->
  (forall a1 a2,
     calculate_answer_metrics r1 sources = Return a1 ->
     calculate_answer_metrics r2 sources = Return a2 ->
     citation_count a1 = citation_count a2
     /\ answer_source_overlap a1 = answer_source_overlap a2)
  /\ (forall f1 f2,
        calculate_faithfulness_metrics r1 sources = Return f1 ->
        calculate_faithfulness_metrics r2 sources = Return f2 ->
        has_citations f1 = has_citations f2).
Proof.
  intros Hl. split.
  - intros a1 a2. rewrite !answer_metrics_eq.
    destruct (forallb title_is_text sources); [|discriminate].
    intros [= <-] [= <-]. cbn [citation_count answer_source_overlap].
    unfold count_citations, MetricsSpec.response_word_set, MetricsSpec.tokens.
    rewrite Hl. auto.
  - intros f1 f2. unfold MetricsCalculator.calculate_faithfulness_metrics.
    intros [= <-] [= <-]. cbn [has_citations]. rewrite Hl. reflexivity.
Qed.

End Facts.

Lemma evaluate_response_outcomes_witness :
  (exists er,
     MetricsCalculator.evaluate_response latin1_lower latin1_isalnum
       (lit "Hvad er sne?") (lit "hyde") cited_response snow_sources = Return er
     /\ num_sources (retrieval er) = 3
     /\ answer_length (answer er) = 42)
  /\ MetricsCalculator.evaluate_response latin1_lower latin1_isalnum
       (lit "Hvad er sne?") (lit "hyde") cited_response
       [titled "Sne"; [(lit "title", PInt 5)]] = Raise TypeError.
Proof.
  split.
  - destruct (proj1 (evaluate_response_outcomes latin1_lower latin1_isalnum
                       (lit "Hvad er sne?") (lit "hyde") cited_response
                       snow_sources) eq_refl) as (er & Her & _ & Hn & Hl).
    exists er. auto.
  - apply (proj2 (evaluate_response_outcomes latin1_lower latin1_isalnum
                    (lit "Hvad er sne?") (lit "hyde") cited_response
                    [titled "Sne"; [(lit "title", PInt 5)]])).
    reflexivity.
Defined.

Lemma source_diversity_bounds_witness :
  exists m,
    MetricsCalculator.calculate_retrieval_metrics latin1_lower latin1_isalnum
      snow_sources = Return m
    /\ (0 < source_diversity m <= 1)%Q
    /\ ~ NoDup (MetricsSpec.joined_tokens latin1_lower latin1_isalnum snow_sources).
Proof.
  destruct (source_diversity_bounds latin1_lower latin1_isalnum snow_sources
              ltac:(discriminate) eq_refl) as (m & Hm & [_ H1] & Htok).
  destruct (Htok ltac:(vm_compute; discriminate)) as [Hpos Hone].
  exists m. split; [exact Hm|]. split; [split; assumption|].
  intros Hnd. apply Hone in Hnd.
  assert (Hm' : MetricsCalculator.calculate_retrieval_metrics latin1_lower
                  latin1_isalnum snow_sources
                = Return {| num_sources := 3; avg_source_length := 6;
                            source_diversity := 1 # 2 |})
    by (vm_compute; reflexivity).
  rewrite Hm' in Hm. injection Hm as <-. discriminate Hnd.
Defined.

Lemma overlap_extremes_witness :
  ~ (MetricsSpec.response_word_set latin1_lower latin1_isalnum cited_response
     ⊆ MetricsSpec.source_word_set latin1_lower latin1_isalnum snow_sources)
  /\ MetricsSpec.response_word_set latin1_lower latin1_isalnum cited_response
     ∩ MetricsSpec.source_word_set latin1_lower latin1_isalnum snow_sources
     <> ∅.
Proof.
  destruct (overlap_extremes latin1_lower latin1_isalnum cited_response
              snow_sources
              {| answer_length := 42; citation_count := 5;
                 answer_source_overlap := 1 # 8 |}
              ltac:(vm_compute; reflexivity)) as [H1 H0].
  split.
  - intros Hsub. assert (Hr : MetricsSpec.response_word_set latin1_lower
                                latin1_isalnum cited_response <> ∅).
    { intros He. apply (f_equal size) in He. vm_compute in He. discriminate. }
    pose proof (proj2 H1 (conj Hr Hsub)) as Hq. discriminate Hq.
  - intros He. pose proof (proj2 H0 He) as Hq. discriminate Hq.
Defined.

Lemma response_case_insensitive_witness :
  exists a1 a2,
    MetricsCalculator.calculate_answer_metrics latin1_lower latin1_isalnum
      (lit "SNE er hvid [1]") snow_sources = Return a1
    /\ MetricsCalculator.calculate_answer_metrics latin1_lower latin1_isalnum
         (lit "Sne ER Hvid [1]") snow_sources = Return a2
    /\ citation_count a1 = citation_count a2
    /\ answer_source_overlap a1 = answer_source_overlap a2.
Proof.
  destruct (MetricsCalculator.calculate_answer_metrics latin1_lower
              latin1_isalnum (lit "SNE er hvid [1]") snow_sources)
    as [a1|e] eqn:E1; [|vm_compute in E1; discriminate E1].
  destruct (MetricsCalculator.calculate_answer_metrics latin1_lower
              latin1_isalnum (lit "Sne ER Hvid [1]") snow_sources)
    as [a2|e] eqn:E2; [|vm_compute in E2; discriminate E2].
  exists a1, a2. split; [reflexivity|]. split; [reflexivity|].
  exact (proj1 (response_case_insensitive latin1_lower latin1_isalnum
                  (lit "SNE er hvid [1]") (lit "Sne ER Hvid [1]") snow_sources
                  ltac:(vm_compute; reflexivity)) a1 a2 E1 E2).
Defined.

End MetricsMore.

(** ** Aggregation and the comparison script *)

Module CompareFacts.
Import MetricsFacts MetricsMore.

Lemma sum_Z_from (l : list Z) (a : Z) : fold_left Z.add l a = a + sum_Z l.
Proof.
  unfold sum_Z. revert a. induction l as [|x l IH]; intros a; cbn [fold_left].
  - lia.
  - rewrite (IH (a + x)), (IH (0 + x)). lia.
Qed.

Lemma sum_Z_cons (x : Z) (l : list Z) : sum_Z (x :: l) = x + sum_Z l.
Proof. unfold sum_Z at 1. cbn [fold_left]. rewrite sum_Z_from. lia. Qed.

Lemma sum_Z_perm (l l' : list Z) : Permutation l l' -> sum_Z l = sum_Z l'.
Proof.
  induction 1 as [|x l l' _ IH|x y l|l l' l'' _ IH1 _ IH2];
    rewrite ?sum_Z_cons; lia.
Qed.

Lemma sum_Q_from (l : list Q) (a : Q) : (fold_left Qplus l a == a + sum_Q l)%Q.
Proof.
  unfold sum_Q. revert a. induction l as [|x l IH]; intros a; cbn [fold_left].
  - ring.
  - rewrite (IH (a + x)%Q), (IH (0 + x)%Q). ring.
Qed.

Lemma sum_Q_cons (x : Q) (l : list Q) : (sum_Q (x :: l) == x + sum_Q l)%Q.
Proof. unfold sum_Q at 1. cbn [fold_left]. rewrite sum_Q_from. ring. Qed.

Lemma sum_Q_perm (l l' : list Q) : Permutation l l' -> (sum_Q l == sum_Q l')%Q.
Proof.
  induction 1 as [|x l l' _ IH|x y l|l l' l'' _ IH1 _ IH2].
  - reflexivity.
  - rewrite !sum_Q_cons, IH. reflexivity.
  - rewrite !sum_Q_cons. ring.
  - rewrite IH1. exact IH2.
Qed.

Lemma sum_Q_bounds (l : list Q) :
  Forall (fun x => (0 <= x <= 1)%Q) l ->
  (0 <= sum_Q l <= inject_Z (len_Z l))%Q.
Proof.
  induction 1 as [|x l [Hx0 Hx1] _ [IH0 IH1]].
  - split; discriminate.
  - rewrite sum_Q_cons. unfold len_Z in *. cbn [length].
    rewrite Nat2Z.inj_succ, <- Z.add_1_l, inject_Z_plus. split.
    + change 0%Q with (0 + 0)%Q. apply Qplus_le_compat; assumption.
    + apply Qplus_le_compat; assumption.
Qed.

(** The number of results that cite. *)
Lemma citing_count_bounds (l : list bool) :
  0 <= sum_Z (List.map bool_Z l) <= len_Z l
  /\ (sum_Z (List.map bool_Z l) = len_Z l <-> Forall (fun b => b = true) l)
  /\ (sum_Z (List.map bool_Z l) = 0 <-> Forall (fun b => b = false) l).
Proof.
  unfold len_Z. induction l as [|b l (IH1 & IH2 & IH3)]; cbn [List.map length].
  - split; [cbn; lia|]. split; (split; [constructor | reflexivity]).
  - rewrite sum_Z_cons, Nat2Z.inj_succ. destruct b; cbn [bool_Z].
    + split; [lia|]. split.
      * split; [intros H; constructor; [reflexivity | apply IH2; lia]
               | intros H; inversion H; subst; apply IH2 in H3; lia].
      * split; [lia | intros H; inversion H; discriminate].
    + split; [lia|]. split.
      * split; [lia | intros H; inversion H; discriminate].
      * split; [intros H; constructor; [reflexivity | apply IH3; lia]
               | intros H; inversion H; subst; apply IH3 in H3; lia].
Qed.

Lemma float_div_pos (a : Q) (n : Z) :
  0 < n -> float_div a n = Return (Qred (a / inject_Z n)).
Proof.
  intros Hn. unfold float_div. destruct (n =? 0) eqn:E; [|reflexivity].
  apply Z.eqb_eq in E. lia.
Qed.

(** [compare_workflows] on a non-empty list: no division fails. *)
Lemma compare_workflows_eq (results : list EvaluationResult) :
  results <> [] ->
  let n := len_Z results in
  compare_workflows results =
  Return (Some
    {| Comparison.workflows := List.map workflow_id results;
       Comparison.retrieval :=
         {| Comparison.avg_sources :=
              Qred (inject_Z (sum_Z (List.map (fun r => num_sources (retrieval r)) results))
                    / inject_Z n);
            Comparison.avg_diversity :=
              Qred (sum_Q (List.map (fun r => source_diversity (retrieval r)) results)
                    / inject_Z n) |};
       Comparison.answer :=
         {| Comparison.avg_length :=
              Qred (inject_Z (sum_Z (List.map (fun r => answer_length (answer r)) results))
                    / inject_Z n);
            Comparison.avg_citations :=
              Qred (inject_Z (sum_Z (List.map (fun r => citation_count (answer r)) results))
                    / inject_Z n);
            Comparison.avg_overlap :=
              Qred (sum_Q (List.map (fun r => answer_source_overlap (answer r)) results)
                    / inject_Z n) |};
       Comparison.faithfulness :=
         {| Comparison.pct_with_citations :=
              Qred (Qred (inject_Z (sum_Z (List.map
                            (fun r => bool_Z (has_citations (faithfulness r))) results))
                          / inject_Z n) * 100);
            Comparison.avg_claims :=
              Qred (inject_Z (sum_Z (List.map (fun r => claims_count (faithfulness r)) results))
                    / inject_Z n) |} |}).
Proof.
  intros Hne n. destruct results as [|r results']; [congruence|].
  assert (Hn : 0 < n) by (unfold n, len_Z; cbn [length]; lia).
  unfold compare_workflows. fold n.
  rewrite !(true_div_pos _ n Hn), !(float_div_pos _ n Hn). reflexivity.
Qed.

Lemma Qdiv_one (x : Q) : (x / inject_Z 1 == x)%Q.
Proof. unfold Qdiv. change (/ inject_Z 1)%Q with 1%Q. ring. Qed.

(** [compare_workflows] on no result gives the empty dictionary; on one
    result every average is the value of that result, and the percentage is
    100 or 0 as the result cites or not. *)
Theorem compare_workflows_single :
  compare_workflows [] = Return None
  /\ forall r : EvaluationResult,
       exists c,
         compare_workflows [r] = Return (Some c)
         /\ Comparison.workflows c = [workflow_id r]
         /\ (Comparison.avg_sources (Comparison.retrieval c)
             == inject_Z (num_sources (retrieval r)))%Q
         /\ (Comparison.avg_diversity (Comparison.retrieval c)
             == source_diversity (retrieval r))%Q
         /\ (Comparison.avg_length (Comparison.answer c)
             == inject_Z (answer_length (answer r)))%Q
         /\ (Comparison.avg_citations (Comparison.answer c)
             == inject_Z (citation_count (answer r)))%Q
         /\ (Comparison.avg_overlap (Comparison.answer c)
             == answer_source_overlap (answer r))%Q
         /\ Comparison.pct_with_citations (Comparison.faithfulness c)
            = (if has_citations (faithfulness r) then 100 else 0)%Q
         /\ (Comparison.avg_claims (Comparison.faithfulness c)
             == inject_Z (claims_count (faithfulness r)))%Q.
Proof.
  split; [reflexivity|]. intros r. eexists.
  split; [apply compare_workflows_eq; discriminate|].
  cbn [Comparison.workflows Comparison.retrieval Comparison.answer
         Comparison.faithfulness Comparison.avg_sources Comparison.avg_diversity
         Comparison.avg_length Comparison.avg_citations Comparison.avg_overlap
         Comparison.pct_with_citations Comparison.avg_claims List.map].
  change (len_Z [r]) with 1. rewrite !sum_Z_cons.
  change (sum_Z []) with 0. rewrite !Z.add_0_r.
  repeat split; rewrite ?Qred_correct, ?Qdiv_one; try reflexivity.
  - rewrite sum_Q_cons. change (sum_Q []) with 0%Q. ring.
  - rewrite sum_Q_cons. change (sum_Q []) with 0%Q. ring.
  - destruct (has_citations (faithfulness r)); reflexivity.
Qed.

(** The percentage of results that cite lies between 0 and 100; it is 100
    exactly when every result cites and 0 exactly when none does. *)
Theorem pct_with_citations_bounds (results : list EvaluationResult) :
  results <> [] ->
  exists c,
    compare_workflows results = Return (Some c)
    /\ let pct := Comparison.pct_with_citations (Comparison.faithfulness c) in
       (0 <= pct <= 100)%Q
       /\ (pct == 100 <->
           Forall (fun r => has_citations (faithfulness r) = true) results)%Q
       /\ (pct == 0 <->
           Forall (fun r => has_citations (faithfulness r) = false) results)%Q.
Proof.
  intros Hne. eexists. split; [apply compare_workflows_eq; exact Hne|].
  cbn [Comparison.faithfulness Comparison.pct_with_citations].
  set (flags := List.map (fun r => has_citations (faithfulness r)) results).
  assert (Hk : List.map (fun r => bool_Z (has_citations (faithfulness r))) results
               = List.map bool_Z flags).
  { unfold flags. rewrite List.map_map. reflexivity. }
  rewrite Hk.
  assert (Hlen : len_Z results = len_Z flags).
  { unfold len_Z, flags. rewrite length_map. reflexivity. }
  rewrite Hlen.
  assert (Hn : 0 < len_Z flags).
  { rewrite <- Hlen. destruct results; [congruence|].
    unfold len_Z. cbn [length]. lia. }
  destruct (citing_count_bounds flags) as (Hb & Hall & Hnone).
  set (k := sum_Z (List.map bool_Z flags)) in *.
  assert (Hall' : Forall (fun b => b = true) flags <->
                  Forall (fun r => has_citations (faithfulness r) = true) results).
  { unfold flags. rewrite Forall_map. reflexivity. }
  assert (Hnone' : Forall (fun b => b = false) flags <->
                   Forall (fun r => has_citations (faithfulness r) = false) results).
  { unfold flags. rewrite Forall_map. reflexivity. }
  cbv zeta. rewrite !Qred_correct.
  pose proof (ratio_bounds k (len_Z flags) Hb Hn) as [H0 H1].
  rewrite Qred_correct in H0, H1.
  split; [|split].
  - split.
    + change 0%Q with (0 * 100)%Q. apply Qmult_le_compat_r; [exact H0 | discriminate].
    + change 100%Q with (1 * 100)%Q. apply Qmult_le_compat_r; [exact H1 | discriminate].
  - rewrite <- Hall', <- Hall, <- (ratio_eq_one k _ Hn). split.
    + intros H. apply Qmult_inj_r with (z := 100%Q); [discriminate|].
      rewrite H. reflexivity.
    + intros ->. reflexivity.
  - rewrite <- Hnone', <- Hnone, <- (ratio_eq_zero k _ Hn). split.
    + intros H. apply Qmult_inj_r with (z := 100%Q); [discriminate|].
      rewrite H. reflexivity.
    + intros ->. reflexivity.
Qed.


(** Averages of proportions are proportions: when every overlap and every
    diversity lies between 0 and 1, so do their averages. *)
Theorem averages_bounded (results : list EvaluationResult) :
  results <> [] ->
  Forall (fun r => (0 <= answer_source_overlap (answer r) <= 1)%Q
                   /\ (0 <= source_diversity (retrieval r) <= 1)%Q) results ->
  exists c,
    compare_workflows results = Return (Some c)
    /\ (0 <= Comparison.avg_overlap (Comparison.answer c) <= 1)%Q
    /\ (0 <= Comparison.avg_diversity (Comparison.retrieval c) <= 1)%Q.
Proof.
  intros Hne Hall. eexists. split; [apply compare_workflows_eq; exact Hne|].
  cbn [Comparison.retrieval Comparison.answer Comparison.avg_overlap
         Comparison.avg_diversity].
  assert (Hn : (0 < inject_Z (len_Z results))%Q).
  { change 0%Q with (inject_Z 0). rewrite <- Zlt_Qlt.
    destruct results; [congruence|]. unfold len_Z. cbn [length]. lia. }
  assert (Havg : forall f : EvaluationResult -> Q,
             Forall (fun r => (0 <= f r <= 1)%Q) results ->
             (0 <= Qred (sum_Q (List.map f results) / inject_Z (len_Z results)) <= 1)%Q).
  { intros f Hf. rewrite Qred_correct.
    destruct (sum_Q_bounds (List.map f results)) as [H0 H1].
    { apply Forall_map. exact Hf. }
    unfold len_Z in H1. rewrite length_map in H1. fold (len_Z results) in H1.
    split.
    - apply Qle_shift_div_l; [exact Hn|]. rewrite Qmult_0_l. exact H0.
    - apply Qle_shift_div_r; [exact Hn|]. rewrite Qmult_1_l. exact H1. }
  split; apply Havg; (eapply Forall_impl; [exact Hall|]); intros r [Ho Hd];
    assumption.
Qed.

Lemma pct_with_citations_bounds_witness :
  exists c,
    compare_workflows [cited "a" true; cited "b" false; cited "c" true;
                       cited "d" true] = Return (Some c)
    /\ (0 <= Comparison.pct_with_citations (Comparison.faithfulness c) <= 100)%Q.
Proof.
  destruct (pct_with_citations_bounds
              [cited "a" true; cited "b" false; cited "c" true; cited "d" true]
              ltac:(discriminate)) as (c & Hc & Hb & _).
  exists c. split; [exact Hc | exact Hb].
Defined.


Lemma averages_bounded_witness :
  exists c,
    compare_workflows [scored "a" 2 (1 # 2) 1 (1 # 3); scored "b" 1 1 0 0]
    = Return (Some c)
    /\ (0 <= Comparison.avg_overlap (Comparison.answer c) <= 1)%Q.
Proof.
  destruct (averages_bounded
              [scored "a" 2 (1 # 2) 1 (1 # 3); scored "b" 1 1 0 0]
              ltac:(discriminate)
              ltac:(repeat constructor; discriminate))
    as (c & Hc & Ho & _).
  exists c. auto.
Defined.

End CompareFacts.

(** ** The comparison script *)

Module ScriptFacts.
Import ConnectorFacts MetricsSpec MetricsMore CompareFacts CompareScript.

Lemma titles_dumped (srcs : list Source.t) :
  forallb title_is_text (List.map model_dump srcs) = true.
Proof. induction srcs as [|s srcs IH]; [reflexivity|]. cbn [List.map forallb]. rewrite IH. reflexivity. Qed.

Lemma title_dumped (s : Source.t) : title_text (model_dump s) = Source.title s.
Proof. reflexivity. Qed.

Lemma compare_workflows_returns (results : list EvaluationResult) :
  exists c, compare_workflows results = Return c.
Proof.
  destruct results as [|r results]; [eexists; reflexivity|].
  eexists. apply compare_workflows_eq. discriminate.
Qed.

(** With a sound transport, [run_workflow] raises nothing that
    [except Exception] would let through. *)
Lemma run_workflow_exception client self workflow_id user_input conversation_id
    history e :
  transport_outcome (post client (run_url self workflow_id)
                       (run_payload user_input conversation_id history)) ->
  run_workflow client self workflow_id user_input conversation_id history = Raise e ->
  is_Exception e = true.
Proof.
  rewrite run_workflow_cases.
  destruct (post client _ _) as [resp|e0]; cbn [transport_outcome].
  - intros _. destruct (is_success resp).
    + intros H. apply decode_response_raise in H. destruct e; try discriminate;
        reflexivity.
    + intros [= <-]. reflexivity.
  - destruct e0; intros []. intros [= <-]. reflexivity.
Qed.

Section Script.

Variable lower : str -> str.
Variable isalnum : char -> bool.

Local Abbreviation evaluate_workflow :=
  (CompareScript.evaluate_workflow lower isalnum) (only parsing).
Local Abbreviation try_workflow :=
  (CompareScript.try_workflow lower isalnum) (only parsing).

(** Evaluation never fails on what [run_workflow] returned: the titles of
    validated sources are text. *)
Lemma evaluate_workflow_cases client connector q w :
  match run_workflow client connector w q (lit "compare-" ++ w) None with
  | Return wr =>
      exists er,
        evaluate_workflow client connector q w = Return er
        /\ EvaluationResult_echo er =
           (q, w, WorkflowResult.response wr,
            List.map model_dump (WorkflowResult.sources wr))
        /\ num_sources (retrieval er) = len_Z (WorkflowResult.sources wr)
  | Raise e => evaluate_workflow client connector q w = Raise e
  end.
Proof.
  unfold CompareScript.evaluate_workflow.
  destruct (run_workflow client connector w q _ None) as [wr|e];
    cbn [bind]; [|reflexivity].
  destruct (evaluate_response_returns lower isalnum q w
              (WorkflowResult.response wr)
              (List.map model_dump (WorkflowResult.sources wr))
              (titles_dumped _)) as (er & Her & Hecho & Hn & _).
  exists er. split; [exact Her|]. split; [exact Hecho|].
  rewrite Hn. unfold len_Z. rewrite length_map. reflexivity.
Qed.

Lemma loop_results client connector q (workflow_ids : list str) :
  (forall url payload, transport_outcome (post client url payload)) ->
  forall acc, exists rs,
    foldM (try_workflow client connector q) acc workflow_ids
    = Return (acc ++ rs)
    /\ List.map workflow_id rs
       = List.filter (workflow_runs client connector q) workflow_ids
    /\ Forall (fun er => query er = q) rs.
Proof.
  intros Hsound. induction workflow_ids as [|w ws IH]; intros acc.
  - exists []. cbn. rewrite app_nil_r. auto.
  - cbn [foldM List.filter]. unfold CompareScript.try_workflow at 1.
    unfold workflow_runs at 1.
    pose proof (evaluate_workflow_cases client connector q w) as Hcase.
    destruct (run_workflow client connector w q (lit "compare-" ++ w) None)
      as [wr|e] eqn:Erun.
    + destruct Hcase as (er & Her & Hecho & _). rewrite Her.
      cbn [bind try_except is_return].
      destruct (IH (acc ++ [er])) as (rs & Hrs & Hids & Hq).
      exists (er :: rs). rewrite Hrs, <- app_assoc. split; [reflexivity|].
      unfold EvaluationResult_echo in Hecho. injection Hecho as Hq1 Hw _ _.
      cbn [List.map]. rewrite Hids, Hw. split; [reflexivity|].
      constructor; assumption.
    + rewrite Hcase. cbn [bind try_except is_return].
      rewrite (run_workflow_exception _ _ _ _ _ _ _ (Hsound _ _) Erun).
      cbn [bind]. apply IH.
Qed.

(** The script returns one evaluation per workflow whose run returned, in
    the order of the workflow ids, each for the query asked: a workflow that
    fails is passed over and the later ones still run.  (The transport is
    sound: a request is answered or fails with a [RequestError].) *)
Theorem script_results client connector q (workflow_ids : list str) :
  (forall url payload, transport_outcome (post client url payload)) ->
  exists results,
    CompareScript.compare_workflows_on_query lower isalnum client connector q
      workflow_ids = Return results
    /\ List.map workflow_id results
       = List.filter (workflow_runs client connector q) workflow_ids
    /\ Forall (fun er => query er = q) results.
Proof.
  intros Hsound.
  destruct (loop_results client connector q workflow_ids Hsound [])
    as (rs & Hrs & Hids & Hq).
  exists rs. unfold CompareScript.compare_workflows_on_query.
  rewrite Hrs. cbn [app bind]. split; [|auto].
  destruct (1 <? len_Z rs); [|reflexivity].
  destruct (compare_workflows_returns rs) as [c ->]. reflexivity.
Qed.

End Script.

(** A service that knows one workflow only. *)
Lemma only_hyde_sound :
  forall url payload, transport_outcome (post only_hyde url payload).
Proof.
  intros url payload. unfold only_hyde. cbn [post].
  destruct (Str.eqb url _); exact I.
Defined.

Lemma script_results_witness :
  exists results,
    CompareScript.compare_workflows_on_query latin1_lower latin1_isalnum
      only_hyde localhost (lit "Hvad er sne?")
      [lit "hybrid"; lit "hyde"; lit "other"] = Return results
    /\ List.map workflow_id results = [lit "hyde"].
Proof.
  destruct (script_results latin1_lower latin1_isalnum only_hyde localhost
              (lit "Hvad er sne?") [lit "hybrid"; lit "hyde"; lit "other"]
              only_hyde_sound) as (rs & Hrs & Hids & _).
  exists rs. split; [exact Hrs|]. rewrite Hids. vm_compute. reflexivity.
Defined.

(** What [except Exception] does not catch ends the script. *)
Example script_interrupted :
  CompareScript.compare_workflows_on_query latin1_lower latin1_isalnum
    (failing (OtherError (lit "KeyboardInterrupt"))) localhost
    (lit "Hvad er sne?") [lit "hyde"]
  = Raise (OtherError (lit "KeyboardInterrupt")).
Proof. vm_compute. reflexivity. Qed.

End ScriptFacts.

(** ** Sentences and claims *)

Module ClaimFacts.
Import Re ReFacts ReSpec MetricsCalculator.

Section Facts.

Variable isalnum : char -> bool.

Local Abbreviation is_word := (Re.is_word isalnum) (only parsing).
Local Abbreviation take_word := (Re.take_word isalnum) (only parsing).
Local Abbreviation drop_word := (Re.drop_word isalnum) (only parsing).
Local Abbreviation word_runs := (ReSpec.word_runs isalnum) (only parsing).
Local Abbreviation findall_from := (Re.findall_from isalnum) (only parsing).
Local Abbreviation match_here := (Re.match_here isalnum) (only parsing).
Local Abbreviation search_from := (Re.search_from isalnum) (only parsing).

(** [findall] with the word pattern lists the maximal runs of word
    characters. *)
Lemma findall_word_runs (s : str) :
  (forall prev, findall_from word_pattern 0 prev s = word_runs false s)
  /\ (forall prev,
        findall_from word_pattern (length (take_word s)) prev s
        = word_runs true s).
Proof.
  induction s as [|c t [IH1 IH2]].
  - split; reflexivity.
  - assert (H1 : forall prev,
               findall_from word_pattern 0 prev (c :: t) = word_runs false (c :: t)).
    { intros prev. rewrite findall_word_cons. cbn [ReSpec.word_runs].
      destruct (Re.is_word isalnum c); [rewrite IH2 | rewrite IH1]; reflexivity. }
    split; [exact H1|]. intros prev.
    cbn [Re.take_word ReSpec.word_runs].
    destruct (Re.is_word isalnum c) eqn:E.
    + cbn [length Re.findall_from]. apply IH2.
    + cbn [length]. rewrite H1. cbn [ReSpec.word_runs]. rewrite E. reflexivity.
Qed.

Lemma words_runs (s : str) : words isalnum s = word_runs false s.
Proof. apply findall_word_runs. Qed.

(** A literal matches when it is a prefix; the continuation then sees its
    last character as the character before the position. *)
Lemma match_lit_prefix (l : str) (k : Re.cont) : forall prev s,
  Re.match_lit l k prev s =
  match Json.strip_prefix l s with
  | Some rest => k (from_option Some prev (last l)) rest
  | None => None
  end.
Proof.
  induction l as [|a l IH]; intros prev s; [reflexivity|].
  cbn [Re.match_lit Json.strip_prefix]. destruct s as [|b s]; [reflexivity|].
  destruct (a =? b)%N eqn:E; [|reflexivity].
  apply N.eqb_eq in E. subst b. rewrite IH.
  destruct (Json.strip_prefix l s); [|reflexivity].
  destruct l as [|a' l']; [reflexivity|].
  rewrite last_cons_cons. destruct (last (a' :: l')) eqn:El; [reflexivity|].
  apply last_None in El. discriminate.
Qed.

Lemma found_alternatives (l : list str) (z : regex) (k : Re.cont) prev s :
  found (rmatch isalnum (fold_right RAlt z (List.map RLit l)) k prev s) =
  existsb (fun v => found (Re.match_lit v k prev s)) l
  || found (rmatch isalnum z k prev s).
Proof.
  induction l as [|v l IH]; [reflexivity|].
  cbn [List.map fold_right rmatch existsb].
  destruct (Re.match_lit v k prev s); [reflexivity|]. exact IH.
Qed.

(** A word is a prefix followed by no word character exactly when it is
    the run of word characters at the head. *)
Lemma prefix_is_run (v : str) : forall s,
  forallb (Re.is_word isalnum) v = true ->
  match Json.strip_prefix v s with
  | Some rest => negb (word_opt isalnum (head rest))
  | None => false
  end = Str.eqb (take_word s) v.
Proof.
  unfold Str.eqb. induction v as [|a v IH]; intros s Hv.
  - cbn [Json.strip_prefix]. destruct s as [|c t]; [reflexivity|].
    cbn [head word_opt Re.take_word]. destruct (Re.is_word isalnum c); reflexivity.
  - cbn [forallb] in Hv. apply andb_prop in Hv as [Ha Hv].
    cbn [Json.strip_prefix]. destruct s as [|b s]; [reflexivity|].
    cbn [Re.take_word]. destruct (a =? b)%N eqn:E.
    + apply N.eqb_eq in E. subst b. rewrite Ha, (IH s Hv).
      apply bool_decide_ext. split; [intros ->; reflexivity | intros [= ->]; reflexivity].
    + apply N.eqb_neq in E. symmetry. apply bool_decide_eq_false.
      destruct (Re.is_word isalnum b); [intros [= ->]; congruence | discriminate].
Qed.

Lemma last_is_word (v : str) (prev : option char) :
  v <> [] -> forallb (Re.is_word isalnum) v = true ->
  word_opt isalnum (from_option Some prev (last v)) = true.
Proof.
  intros Hne Hv. destruct (last v) as [c|] eqn:El.
  - apply last_Some in El as [l' ->]. rewrite forallb_app in Hv.
    apply andb_prop in Hv as [_ Hc]. cbn in Hc. rewrite andb_true_r in Hc. exact Hc.
  - apply last_None in El. congruence.
Qed.

Section Verbs.

(** The letters of the nine verb forms are alphanumeric. *)
Hypothesis verbs_alnum : forallb isalnum (concat verbs) = true.

Lemma verb_is_word (v : str) :
  In v verbs -> v <> [] /\ forallb (Re.is_word isalnum) v = true.
Proof.
  intros Hin. split.
  - intros ->. unfold verbs in Hin. cbn in Hin.
    repeat (destruct Hin as [Hin|Hin]; [discriminate Hin|]). exact Hin.
  - apply forallb_forall. intros c Hc. unfold Re.is_word.
    rewrite forallb_forall in verbs_alnum. rewrite verbs_alnum; [reflexivity|].
    apply in_concat. exists v. auto.
Qed.

Local Abbreviation closing := (ReSpec.closing isalnum) (only parsing).

Lemma found_verb (v : str) prev s :
  In v verbs ->
  found (Re.match_lit v closing prev s) = Str.eqb (take_word s) v.
Proof.
  intros Hin. destruct (verb_is_word v Hin) as [Hne Hw].
  rewrite match_lit_prefix, <- (prefix_is_run v s Hw).
  destruct (Json.strip_prefix v s) as [rest|]; [|reflexivity].
  unfold ReSpec.closing. cbn [rmatch]. unfold at_boundary.
  rewrite (last_is_word v prev Hne Hw).
  destruct (word_opt isalnum (head rest)); reflexivity.
Qed.

Lemma existsb_ext_in {A} (f g : A -> bool) (l : list A) :
  (forall x, In x l -> f x = g x) -> existsb f l = existsb g l.
Proof.
  induction l as [|x l IH]; intros H; [reflexivity|].
  cbn [existsb]. rewrite (H x (or_introl eq_refl)), IH; [reflexivity|].
  intros y Hy. apply H. right. exact Hy.
Qed.

(** The claim pattern matches at a position exactly when a word starts
    there and that word is a verb form. *)
Lemma found_claim_here prev s :
  found (match_here claim_patterns prev s) =
  at_boundary isalnum prev s && is_verb (take_word s).
Proof.
  change (match_here claim_patterns prev s)
    with (if at_boundary isalnum prev s
          then rmatch isalnum
                 (fold_right RAlt (RLit (lit "vil"))
                    (List.map RLit
                       (List.map lit
                          ["er"; "var"; "har"; "havde"; "blev"; "bliver"; "kan";
                           "skal"]%string)))
                 closing prev s
          else None).
  destruct (at_boundary isalnum prev s); [|reflexivity]. cbn [andb].
  rewrite found_alternatives. cbn [rmatch].
  replace (found (Re.match_lit (lit "vil") closing prev s))
    with (existsb (fun v => found (Re.match_lit v closing prev s)) [lit "vil"])
    by (cbn [existsb]; apply orb_false_r).
  rewrite <- existsb_app.
  change (List.map lit _ ++ [lit "vil"]) with verbs.
  unfold is_verb. apply existsb_ext_in. intros v Hv. apply found_verb, Hv.
Qed.

Lemma found_search_step (r : regex) prev s :
  found (search_from r prev s) =
  found (match_here r prev s)
  || match s with
     | c :: t => found (search_from r (Some c) t)
     | [] => false
     end.
Proof.
  destruct s as [|c t]; cbn [Re.search_from];
    destruct (match_here r prev _); reflexivity.
Qed.

(** The claim pattern is found in a text exactly when one of the words of
    the text is a verb form. *)
Lemma found_claim (s : str) : forall prev,
  found (search_from claim_patterns prev s) =
  existsb is_verb (word_runs (word_opt isalnum prev) s).
Proof.
  induction s as [|c t IH]; intros prev; rewrite found_search_step,
    found_claim_here.
  - cbn. rewrite andb_false_r. reflexivity.
  - rewrite IH. unfold at_boundary. cbn [head word_opt Re.take_word ReSpec.word_runs].
    destruct (Re.is_word isalnum c) eqn:Ec.
    + destruct (word_opt isalnum prev); cbn [xorb andb orb existsb]; reflexivity.
    + replace (is_verb []) with false by reflexivity.
      rewrite andb_false_r. reflexivity.
Qed.

End Verbs.

(** *** Splitting at a class of characters *)

Local Abbreviation take_in := (ReSpec.take_in isalnum) (only parsing).
Local Abbreviation drop_in := (ReSpec.drop_in isalnum) (only parsing).
Local Abbreviation pieces := (ReSpec.pieces isalnum) (only parsing).
Local Abbreviation split_from := (Re.split_from isalnum) (only parsing).

Lemma take_drop_in cs s : take_in cs s ++ drop_in cs s = s.
Proof.
  induction s as [|c t IH]; [reflexivity|]. cbn.
  destruct (in_cset isalnum cs c); [cbn; rewrite IH|]; reflexivity.
Qed.

Lemma greedy_star_in cs prev s :
  greedy_star isalnum cs (fun _ rest => Some rest) prev s = Some (drop_in cs s).
Proof.
  revert prev. induction s as [|c t IH]; intros prev; [reflexivity|].
  cbn [greedy_star ReSpec.drop_in].
  destruct (in_cset isalnum cs c); [rewrite IH|]; reflexivity.
Qed.

Lemma match_here_plus cs prev c t :
  match_here (RPlus cs) prev (c :: t) =
  if in_cset isalnum cs c then Some (drop_in cs t) else None.
Proof.
  unfold Re.match_here. cbn [rmatch].
  destruct (in_cset isalnum cs c); [apply greedy_star_in | reflexivity].
Qed.

Lemma matched_plus cs c t :
  length (matched (c :: t) (drop_in cs t)) = S (length (take_in cs t)).
Proof.
  unfold matched. rewrite length_take.
  pose proof (f_equal length (take_drop_in cs t)) as H.
  rewrite length_app in H. cbn [length]. lia.
Qed.

(** [re.split] with a class repeated: the pieces between the runs. *)
Lemma split_pieces cs (s : str) :
  (forall cur prev, split_from (RPlus cs) 0 cur prev s = pieces cs false cur s)
  /\ (forall cur prev,
        split_from (RPlus cs) (length (take_in cs s)) cur prev s
        = pieces cs true cur s).
Proof.
  induction s as [|c t [IH1 IH2]].
  - split; reflexivity.
  - assert (H1 : forall cur prev,
               split_from (RPlus cs) 0 cur prev (c :: t)
               = pieces cs false cur (c :: t)).
    { intros cur prev. cbn [Re.split_from ReSpec.pieces].
      rewrite match_here_plus. destruct (in_cset isalnum cs c).
      - rewrite matched_plus, IH2. reflexivity.
      - apply IH1. }
    split; [exact H1|]. intros cur prev.
    cbn [ReSpec.take_in ReSpec.pieces].
    destruct (in_cset isalnum cs c) eqn:E.
    + cbn [length Re.split_from]. apply IH2.
    + cbn [length]. rewrite H1. cbn [ReSpec.pieces]. rewrite E. reflexivity.
Qed.

Lemma pieces_concat cs (s : str) : forall inrun cur,
  concat (pieces cs inrun cur s)
  = rev cur ++ List.filter (fun c => negb (in_cset isalnum cs c)) s.
Proof.
  induction s as [|c t IH]; intros inrun cur.
  - cbn. rewrite !app_nil_r. reflexivity.
  - cbn [ReSpec.pieces List.filter]. destruct (in_cset isalnum cs c).
    + cbn [negb]. destruct inrun; [apply IH|].
      cbn [concat]. rewrite IH. reflexivity.
    + cbn [negb]. rewrite IH. cbn [rev]. rewrite <- app_assoc. reflexivity.
Qed.

Lemma pieces_clean cs (s : str) : forall inrun cur,
  forallb (fun c => negb (in_cset isalnum cs c)) cur = true ->
  Forall (fun p => forallb (fun c => negb (in_cset isalnum cs c)) p = true)
    (pieces cs inrun cur s).
Proof.
  assert (Hrev : forall cur,
             forallb (fun c => negb (in_cset isalnum cs c)) cur = true ->
             forallb (fun c => negb (in_cset isalnum cs c)) (rev cur) = true).
  { intros cur H. apply forallb_forall. intros x Hx.
    rewrite forallb_forall in H. apply H, in_rev, Hx. }
  induction s as [|c t IH]; intros inrun cur Hcur.
  - repeat constructor. apply Hrev, Hcur.
  - cbn [ReSpec.pieces]. destruct (in_cset isalnum cs c) eqn:E.
    + destruct inrun; [apply IH, Hcur|].
      constructor; [apply Hrev, Hcur | apply IH; reflexivity].
    + apply IH. cbn [forallb]. rewrite E, Hcur. reflexivity.
Qed.

Lemma pieces_not_nil cs (s : str) : forall inrun cur, pieces cs inrun cur s <> [].
Proof.
  induction s as [|c t IH]; intros inrun cur; cbn [ReSpec.pieces]; [discriminate|].
  destruct (in_cset isalnum cs c); [destruct inrun|]; try apply IH; discriminate.
Qed.

Lemma found_is_Some_bool (o : option str) : bool_decide (is_Some o) = found o.
Proof.
  destruct o; unfold found.
  - apply bool_decide_eq_true. eauto.
  - apply bool_decide_eq_false. intros [? [=]].
Qed.

Section Faithfulness.

Variable lower : str -> str.

(** The sentences of a response hold no full stop, exclamation mark or
    question mark, there is at least one of them, and laid end to end they
    are the response without those three characters. *)
Theorem sentences_partition (response : str) :
  let sentences := Re.split isalnum sentence_end response in
  sentences <> []
  /\ Forall (fun p => forallb (fun c => negb (is_terminator c)) p = true) sentences
  /\ concat sentences = List.filter (fun c => negb (is_terminator c)) response.
Proof.
  cbv zeta. unfold Re.split, sentence_end.
  rewrite (proj1 (split_pieces (COneOf (lit ".!?")) response)).
  split; [apply pieces_not_nil|]. split.
  - apply (pieces_clean (COneOf (lit ".!?"))). reflexivity.
  - apply (pieces_concat (COneOf (lit ".!?"))).
Qed.

(** The number of claims is the number of sentences one of whose
    lowercase words is one of the nine verb forms; it is at most the number
    of sentences. *)
Theorem claims_count_verbs (response : str) (sources : list dict)
    (fm : FaithfulnessMetrics) :
  forallb isalnum (concat verbs) = true ->
  calculate_faithfulness_metrics lower isalnum response sources = Return fm ->
  let sentences := Re.split isalnum sentence_end response in
  claims_count fm =
  len_Z (List.filter (fun sent => existsb is_verb (words isalnum (lower sent)))
           sentences)
  /\ 0 <= claims_count fm <= len_Z sentences.
Proof.
  intros Hverbs Hfm sentences. unfold calculate_faithfulness_metrics in Hfm.
  injection Hfm as <-. cbn [claims_count]. fold sentences.
  assert (Hext : forall sent,
             bool_decide (is_Some (search isalnum claim_patterns (lower sent)))
             = existsb is_verb (words isalnum (lower sent))).
  { intros sent. rewrite found_is_Some_bool. unfold search.
    rewrite (found_claim Hverbs), words_runs. reflexivity. }
  rewrite (List.filter_ext _ _ Hext). split; [reflexivity|].
  unfold len_Z. pose proof (List.filter_length_le
    (fun sent => existsb is_verb (words isalnum (lower sent))) sentences). lia.
Qed.

End Faithfulness.

End Facts.

Lemma claims_count_verbs_witness :
  claims_count {| has_citations := true; claims_count := 2 |} =
  len_Z (List.filter
           (fun sent => existsb is_verb (words latin1_isalnum (latin1_lower sent)))
           (Re.split latin1_isalnum sentence_end verbs_response))
  /\ 0 <= claims_count {| has_citations := true; claims_count := 2 |}
     <= len_Z (Re.split latin1_isalnum sentence_end verbs_response).
Proof.
  exact (claims_count_verbs latin1_isalnum latin1_lower verbs_response []
           {| has_citations := true; claims_count := 2 |}
           eq_refl ltac:(vm_compute; reflexivity)).
Defined.

End ClaimFacts.
